(** * TOTP (RFC 6238) package [totp]: a shallow embedding of [totp/totp.go]

    The development follows the Go source function by function.

    - Go's fixed-width integers are integers of [Z] with the wrap-around of
      every conversion written out ([uint64], [int64], [int]); [int] and
      [uint] are the 64-bit ones.
    - [float64] is IEEE 754 binary64 as specified by [SpecFloat]
      (precision 53, [emax] 1024): conversions from integers round to
      nearest-even, and so does the division.
    - The collaborators that live outside [totp.go] (package [hotp], the
      constructors of package [otp], the random source) are interfaces:
      type classes whose instances are supplied by the caller. *)

From Stdlib Require Import ZArith List Lia Bool String Ascii.
From Stdlib Require Strings.Byte Numbers.DecimalString.
From Stdlib Require Import Floats.SpecFloat.
Import ListNotations.
Local Open Scope Z_scope.

(** ** Go integers *)

(** [uint64(x)]: conversion to an unsigned 64-bit integer keeps the low 64
    bits. *)
Definition uint64 (z : Z) : Z := z mod 2 ^ 64.

(** [int64(x)]: conversion to a signed 64-bit integer (two's complement). *)
Definition int64 (z : Z) : Z := (z + 2 ^ 63) mod 2 ^ 64 - 2 ^ 63.

(** [int(x)] and [uint(x)] on a 64-bit target. *)
Definition int (z : Z) : Z := int64 z.
Definition uint (z : Z) : Z := uint64 z.

Definition MaxInt : Z := 2 ^ 63 - 1.

(** ** float64 *)

Definition float64 : Type := spec_float.

(** [float64(x)] for an integer [x]: the nearest binary64 value, ties to
    even. *)
Definition float64_of_Z (z : Z) : float64 := binary_normalize 53 1024 z 0 false.

(** [x / y] on float64. *)
Definition float64_div (x y : float64) : float64 := SFdiv 53 1024 x y.

(** The integer part of a float64, rounded toward zero; [None] for NaN and
    the infinities. *)
Definition float64_trunc (x : float64) : option Z :=
  match x with
  | S754_zero _ => Some 0
  | S754_finite s m e =>
      Some (cond_Zopp s (if 0 <=? e then Zpos m * 2 ^ e else Zpos m / 2 ^ (- e)))
  | _ => None
  end.

(** The Go specification leaves the result of converting a floating-point
    value to an integer type that cannot represent it to the implementation
    (amd64 and arm64 differ).  A [Platform] fixes that choice; it is always
    passed explicitly or bound by a section, never inferred. *)
Class Platform : Type := {
  int64_of_float64_unrepresentable : float64 -> Z;
  uint64_of_float64_unrepresentable : float64 -> Z
}.

(** [int64(f)] for a float64 [f]. *)
Definition int64_of_float64 `{Platform} (f : float64) : Z :=
  match float64_trunc f with
  | Some z =>
      if (- 2 ^ 63 <=? z) && (z <? 2 ^ 63) then z
      else int64 (int64_of_float64_unrepresentable f)
  | None => int64 (int64_of_float64_unrepresentable f)
  end.

(** [uint64(f)] for a float64 [f]. *)
Definition uint64_of_float64 `{Platform} (f : float64) : Z :=
  match float64_trunc f with
  | Some z =>
      if (0 <=? z) && (z <? 2 ^ 64) then z
      else uint64 (uint64_of_float64_unrepresentable f)
  | None => uint64 (uint64_of_float64_unrepresentable f)
  end.

(** amd64: CVTTSD2SQ yields the "integer indefinite" value [-2^63] when the
    result does not fit; the unsigned conversion is built from the signed
    one. *)
Definition amd64_int64 (f : float64) : Z := - 2 ^ 63.

Definition amd64_uint64 (f : float64) : Z :=
  match float64_trunc f with
  | Some z => if (- 2 ^ 63 <=? z) && (z <? 0) then z else 2 ^ 63
  | None => 2 ^ 63
  end.

Definition amd64 : Platform := {|
  int64_of_float64_unrepresentable := amd64_int64;
  uint64_of_float64_unrepresentable := amd64_uint64
|}.

(** arm64: FCVTZS and FCVTZU saturate, and send NaN to 0. *)
Definition arm64_int64 (f : float64) : Z :=
  match float64_trunc f with
  | Some z => if z <? 0 then - 2 ^ 63 else 2 ^ 63 - 1
  | None =>
      match f with
      | S754_infinity true => - 2 ^ 63
      | S754_infinity false => 2 ^ 63 - 1
      | _ => 0
      end
  end.

Definition arm64_uint64 (f : float64) : Z :=
  match float64_trunc f with
  | Some z => if z <? 0 then 0 else 2 ^ 64 - 1
  | None =>
      match f with
      | S754_infinity false => 2 ^ 64 - 1
      | _ => 0
      end
  end.

Definition arm64 : Platform := {|
  int64_of_float64_unrepresentable := arm64_int64;
  uint64_of_float64_unrepresentable := arm64_uint64
|}.

Module math.

(** [math.Floor]: the greatest integral float64 not above [x]; zeros,
    infinities and NaN are returned unchanged. *)
Definition Floor (x : float64) : float64 :=
  match x with
  | S754_finite s m e =>
      if 0 <=? e then x
      else binary_normalize 53 1024 (cond_Zopp s (Zpos m) / 2 ^ (- e)) 0 s
  | _ => x
  end.

End math.

(** ** Package [time] *)

Module time.

(** A [time.Time] is observed by this package only through [t.Unix()],
    an [int64] count of seconds. *)
Record Time : Type := { Unix : Z }.

End time.

(** ** Package [otp] *)

Module otp.

(** [type Digits int] and [type Algorithm int]. *)
Definition Digits : Type := Z.
Definition Algorithm : Type := Z.

(** Modelled from the spec: the constants of package [otp] are declared
    outside [totp.go].  "Digits defaults to 6" names the value the
    default-filling step stores. *)
Definition DigitsSix : Digits := 6.
Definition DigitsEight : Digits := 8.

(** Modelled from the spec: "Algorithm defaults to SHA1" while
    [defaultOpts] never assigns the field, so SHA1 is the zero value of
    [Algorithm] (the first constant of the enumeration SHA1, SHA256,
    SHA512). *)
Definition AlgorithmSHA1 : Algorithm := 0.
Definition AlgorithmSHA256 : Algorithm := 1.
Definition AlgorithmSHA512 : Algorithm := 2.

(** Go's [error] values seen by this package: the two provisioning errors
    of [otp], and whatever a collaborator reports. *)
Inductive error : Type :=
| ErrGenerateMissingIssuer
| ErrGenerateMissingAccountName
| ErrExternal (msg : string).

End otp.

Definition error : Type := otp.error.

(** ** Package [hotp] (consumed) *)

Module hotp.

Record ValidateOpts : Type := {
  Digits : otp.Digits;
  Algorithm : otp.Algorithm
}.

(** The two entry points of [hotp] used by [totp]; a Go result
    [(v, err)] is a pair whose second component is [None] for [nil]. *)
Class Package : Type := {
  GenerateCodeCustom : string -> Z -> ValidateOpts -> string * option error;
  ValidateCustom : string -> Z -> string -> ValidateOpts -> bool * option error
}.

End hotp.

(** ** Package [totp]: options *)

Module ValidateOpts.

Record t : Type := {
  Period : Z;
  Skew : Z;
  Digits : otp.Digits;
  Algorithm : otp.Algorithm
}.

(** [new(ValidateOpts)]: every field at its zero value. *)
Definition zero : t := {| Period := 0; Skew := 0; Digits := 0; Algorithm := 0 |}.

End ValidateOpts.

Definition defaultOpts (opts : ValidateOpts.t) : ValidateOpts.t :=
  let opts :=
    if ValidateOpts.Skew opts =? 0 then
      {| ValidateOpts.Period := ValidateOpts.Period opts;
         ValidateOpts.Skew := 30;
         ValidateOpts.Digits := ValidateOpts.Digits opts;
         ValidateOpts.Algorithm := ValidateOpts.Algorithm opts |}
    else opts in
  let opts :=
    if ValidateOpts.Digits opts =? 0 then
      {| ValidateOpts.Period := ValidateOpts.Period opts;
         ValidateOpts.Skew := ValidateOpts.Skew opts;
         ValidateOpts.Digits := otp.DigitsSix;
         ValidateOpts.Algorithm := ValidateOpts.Algorithm opts |}
    else opts in
  if ValidateOpts.Period opts =? 0 then
    {| ValidateOpts.Period := 30;
       ValidateOpts.Skew := ValidateOpts.Skew opts;
       ValidateOpts.Digits := ValidateOpts.Digits opts;
       ValidateOpts.Algorithm := ValidateOpts.Algorithm opts |}
  else opts.

(** [type ValidateOpt func(opt *ValidateOpts)]: the update of the record the
    pointer designates. *)
Definition ValidateOpt : Type := ValidateOpts.t -> ValidateOpts.t.

Definition WithPeriod (period : Z) : ValidateOpt :=
  fun opt =>
    {| ValidateOpts.Period := period;
       ValidateOpts.Skew := ValidateOpts.Skew opt;
       ValidateOpts.Digits := ValidateOpts.Digits opt;
       ValidateOpts.Algorithm := ValidateOpts.Algorithm opt |}.

Definition WithSkew (skew : Z) : ValidateOpt :=
  fun opt =>
    {| ValidateOpts.Period := ValidateOpts.Period opt;
       ValidateOpts.Skew := skew;
       ValidateOpts.Digits := ValidateOpts.Digits opt;
       ValidateOpts.Algorithm := ValidateOpts.Algorithm opt |}.

Definition WithDigits (digits : otp.Digits) : ValidateOpt :=
  fun opt =>
    {| ValidateOpts.Period := ValidateOpts.Period opt;
       ValidateOpts.Skew := ValidateOpts.Skew opt;
       ValidateOpts.Digits := digits;
       ValidateOpts.Algorithm := ValidateOpts.Algorithm opt |}.

Definition WithAlgorithm (algo : otp.Algorithm) : ValidateOpt :=
  fun opt =>
    {| ValidateOpts.Period := ValidateOpts.Period opt;
       ValidateOpts.Skew := ValidateOpts.Skew opt;
       ValidateOpts.Digits := ValidateOpts.Digits opt;
       ValidateOpts.Algorithm := algo |}.

(** The prologue shared by [GenerateCodeCustom] and [ValidateCustom]:
    [opts := new(ValidateOpts)], every option function applied in order,
    then [opts.defaultOpts()]. *)
Definition resolveOpts (validateOpts : list ValidateOpt) : ValidateOpts.t :=
  defaultOpts (fold_left (fun opts opt => opt opts) validateOpts ValidateOpts.zero).

(** [math.Floor(float64(t.Unix()) / float64(opts.Period))], the expression
    both entry points convert to their counter. *)
Definition periodQuotient (t : time.Time) (opts : ValidateOpts.t) : float64 :=
  math.Floor (float64_div (float64_of_Z (time.Unix t))
                          (float64_of_Z (ValidateOpts.Period opts))).

(** ** Package [totp]: code generation and validation *)

Section Codes.

Context {platform : Platform} {hotp_pkg : hotp.Package}.

(** [counter := uint64(math.Floor(...))] of [GenerateCodeCustom]. *)
Definition generateCounter (t : time.Time) (opts : ValidateOpts.t) : Z :=
  uint64_of_float64 (periodQuotient t opts).

(** [counter := int64(math.Floor(...))] of [ValidateCustom]. *)
Definition validateCounter (t : time.Time) (opts : ValidateOpts.t) : Z :=
  int64_of_float64 (periodQuotient t opts).

Definition GenerateCodeCustom (secret : string) (t : time.Time)
    (validateOpts : list ValidateOpt) : string * option error :=
  let opts := resolveOpts validateOpts in
  let counter := generateCounter t opts in
  let '(passcode, err) :=
    hotp.GenerateCodeCustom secret counter
      {| hotp.Digits := ValidateOpts.Digits opts;
         hotp.Algorithm := ValidateOpts.Algorithm opts |} in
  match err with
  | Some e => (EmptyString, Some e)
  | None => (passcode, None)
  end.

(** [n] iterations of the body of
    [for i := 1; i <= int(opts.Skew); i++], from index [i] on. *)
Fixpoint appendSkew (counter i : Z) (n : nat) (counters : list Z) : list Z :=
  match n with
  | O => counters
  | S n' =>
      let counters := counters ++ [uint64 (int64 (counter + int64 i))] in
      let counters := counters ++ [uint64 (int64 (counter - int64 i))] in
      appendSkew counter (int (i + 1)) n' counters
  end.

(** The slice [counters] once the loop has exited.  The loop appends two
    counters for each [i] from 1 to [int(skew)], so the slice ends with
    [2 * int(skew) + 1] elements.  The length of a slice is an [int], here
    of 64 bits: once [2 * int(skew) + 1] exceeds the largest [int]
    ([int(skew)] of [2^62] or more) an [append] fails before the loop can
    exit, and for the largest [int] itself [i++] wraps around before the
    guard can fail.  In these cases the call does not return and there is
    no such slice.  (That memory runs out long before is left out.) *)
Definition windowCounters (counter skew : Z) : option (list Z) :=
  let counters := [] in
  let counters := counters ++ [uint64 counter] in
  if MaxInt <? 2 * int skew + 1 then None
  else Some (appendSkew counter 1 (Z.to_nat (int skew)) counters).

(** [for _, counter := range counters]: the result, and the counters on
    which [hotp.ValidateCustom] has been called so far ([calls], oldest
    first). *)
Fixpoint validateLoop (passcode secret : string) (opts : hotp.ValidateOpts)
    (counters calls : list Z) : (bool * option error) * list Z :=
  match counters with
  | [] => ((false, None), calls)
  | counter :: rest =>
      let '(rv, err) := hotp.ValidateCustom passcode counter secret opts in
      let calls := calls ++ [counter] in
      match err with
      | Some e => ((false, Some e), calls)
      | None =>
          if rv then ((true, None), calls)
          else validateLoop passcode secret opts rest calls
      end
  end.

(** [ValidateCustom]: [None] when the call never returns, otherwise the
    returned pair together with the log of the calls made to
    [hotp.ValidateCustom]. *)
Definition ValidateCustom (passcode secret : string) (t : time.Time)
    (validateOpts : list ValidateOpt) : option ((bool * option error) * list Z) :=
  let opts := resolveOpts validateOpts in
  let counter := validateCounter t opts in
  match windowCounters counter (ValidateOpts.Skew opts) with
  | None => None
  | Some counters =>
      Some (validateLoop passcode secret
              {| hotp.Digits := ValidateOpts.Digits opts;
                 hotp.Algorithm := ValidateOpts.Algorithm opts |}
              counters [])
  end.

(** [Validate]: [now] is the value of [time.Now().UTC()]; the error is
    dropped. *)
Definition Validate (now : time.Time) (passcode secret : string)
    (validateOpts : list ValidateOpt) : option bool :=
  match ValidateCustom passcode secret now validateOpts with
  | Some ((rv, _), _) => Some rv
  | None => None
  end.

Definition GenerateCode (secret : string) (t : time.Time) : string * option error :=
  GenerateCodeCustom secret t
    [WithDigits otp.DigitsSix; WithSkew 1; WithAlgorithm otp.AlgorithmSHA1;
     WithPeriod 30].

End Codes.

(** ** Go standard library used by [Generate] *)

Module strconv.

(** [strconv.FormatUint(u, 10)]. *)
Definition FormatUint (u : Z) : string :=
  DecimalString.NilEmpty.string_of_uint (N.to_uint (Z.to_N u)).

End strconv.

Module base32.

(** The alphabet of [base32.StdEncoding]. *)
Definition encodeStd : string := "ABCDEFGHIJKLMNOPQRSTUVWXYZ234567".

(** The bits of a byte, most significant first. *)
Definition bitsOfByte (b : Byte.byte) : list bool :=
  map (fun i => N.testbit (Byte.to_N b) i) [7; 6; 5; 4; 3; 2; 1; 0]%N.

Definition valueOfBits (bits : list bool) : nat :=
  fold_left (fun acc (b : bool) => (2 * acc + (if b then 1 else 0))%nat) bits 0%nat.

(** The first [n] groups of five bits, the last one filled with zeros. *)
Fixpoint quintets (n : nat) (bits : list bool) : list (list bool) :=
  match n with
  | O => []
  | S n' =>
      let q := firstn 5 bits in
      (q ++ repeat false (5 - List.length q)) :: quintets n' (skipn 5 bits)
  end.

Definition encodeChar (q : list bool) : ascii :=
  match String.get (valueOfBits q) encodeStd with
  | Some c => c
  | None => "="%char
  end.

(** [base32.StdEncoding.WithPadding(base32.NoPadding).EncodeToString]:
    RFC 4648 base32 without the trailing ['=']. *)
Definition EncodeToString_NoPadding (src : list Byte.byte) : string :=
  let bits := flat_map bitsOfByte src in
  string_of_list_ascii (map encodeChar (quintets ((List.length bits + 4) / 5) bits)).

End base32.

Definition b32NoPadding_EncodeToString (src : list Byte.byte) : string :=
  base32.EncodeToString_NoPadding src.

Module url.

Inductive encoding : Type := encodePath | encodeHost | encodeQueryComponent.

Definition isAlnum (c : ascii) : bool :=
  let n := nat_of_ascii c in
  ((97 <=? n) && (n <=? 122) || (65 <=? n) && (n <=? 90)
   || (48 <=? n) && (n <=? 57))%nat.

Definition inString (c : ascii) (s : string) : bool :=
  existsb (Ascii.eqb c) (list_ascii_of_string s).

(** [shouldEscape(c, mode)] for the three modes [URL.String] and
    [Values.Encode] use here. *)
Definition shouldEscape (c : ascii) (mode : encoding) : bool :=
  if isAlnum c then false
  else if match mode with
          | encodeHost =>
              inString c
                (String "!" (String "$" (String "&" (String "'" (String "("
                (String ")" (String "*" (String "+" (String "," (String ";"
                (String "=" (String ":" (String "[" (String "]" (String "<"
                (String ">" (String (ascii_of_nat 34) EmptyString)))))))))))))))))
          | _ => false
          end then false
  else if inString c "-_.~" then false
  else if inString c "$&+,/:;=?@" then
    match mode with
    | encodePath => Ascii.eqb c "?"
    | encodeHost => true
    | encodeQueryComponent => true
    end
  else true.

Definition upperhex : string := "0123456789ABCDEF".

Definition hexDigit (n : nat) : ascii :=
  match String.get n upperhex with
  | Some c => c
  | None => "0"%char
  end.

Fixpoint escape (s : string) (mode : encoding) : string :=
  match s with
  | EmptyString => EmptyString
  | String c rest =>
      if shouldEscape c mode then
        match mode with
        | encodeQueryComponent =>
            if Ascii.eqb c " " then String "+" (escape rest mode)
            else String "%" (String (hexDigit (nat_of_ascii c / 16))
                               (String (hexDigit (nat_of_ascii c mod 16))
                                  (escape rest mode)))
        | _ =>
            String "%" (String (hexDigit (nat_of_ascii c / 16))
                          (String (hexDigit (nat_of_ascii c mod 16))
                             (escape rest mode)))
        end
      else String c (escape rest mode)
  end.

Definition QueryEscape (s : string) : string := escape s encodeQueryComponent.

(** [type Values map[string][]string]: at most one binding per key. *)
Definition Values : Type := list (string * list string).

(** [v.Set(key, value)]. *)
Fixpoint ValuesSet (v : Values) (key value : string) : Values :=
  match v with
  | [] => [(key, [value])]
  | (k, vs) :: rest =>
      if String.eqb k key then (k, [value]) :: rest
      else (k, vs) :: ValuesSet rest key value
  end.

(** [slices.Sort(keys)], by insertion. *)
Fixpoint insertKey (kv : string * list string) (sorted : Values) : Values :=
  match sorted with
  | [] => [kv]
  | kv' :: rest =>
      if String.leb (fst kv) (fst kv') then kv :: sorted
      else kv' :: insertKey kv rest
  end.

Definition sortKeys (v : Values) : Values := fold_right insertKey [] v.

(** The inner loop of [Encode]: one ["key=value"] per value of the key,
    joined to the buffer with ['&']. *)
Fixpoint encodeKey (buf keyEscaped : string) (vs : list string) : string :=
  match vs with
  | [] => buf
  | value :: rest =>
      let buf := if (String.length buf =? 0)%nat then buf else (buf ++ "&")%string in
      encodeKey (buf ++ keyEscaped ++ "=" ++ QueryEscape value)%string keyEscaped rest
  end.

(** [v.Encode()]: the bindings in the order of their keys. *)
Definition Encode (v : Values) : string :=
  fold_left (fun buf kv => encodeKey buf (QueryEscape (fst kv)) (snd kv))
            (sortKeys v) EmptyString.

(** The fields of [url.URL] that [Generate] sets; the others keep their
    zero value. *)
Record URL : Type := {
  Scheme : string;
  Host : string;
  Path : string;
  RawQuery : string
}.

Definition EscapedPath (u : URL) : string :=
  if String.eqb (Path u) "*" then "*"%string else escape (Path u) encodePath.

Definition nonEmpty (s : string) : bool := negb (String.length s =? 0)%nat.

Definition startsWithSlash (s : string) : bool :=
  match s with
  | String c _ => Ascii.eqb c "/"
  | EmptyString => false
  end.

(** The first path segment holds a colon (RFC 3986, section 4.2). *)
Fixpoint firstSegmentHasColon (s : string) : bool :=
  match s with
  | EmptyString => false
  | String c rest =>
      if Ascii.eqb c "/" then false
      else if Ascii.eqb c ":" then true
      else firstSegmentHasColon rest
  end.

(** [u.String()] with [Opaque], [User], [RawPath], [Fragment] empty and
    [OmitHost], [ForceQuery] false. *)
Definition String_ (u : URL) : string :=
  let buf := if nonEmpty (Scheme u) then (Scheme u ++ ":")%string else EmptyString in
  let buf :=
    if nonEmpty (Scheme u) || nonEmpty (Host u) then
      let buf :=
        if nonEmpty (Host u) || nonEmpty (Path u) then (buf ++ "//")%string else buf in
      if nonEmpty (Host u) then (buf ++ escape (Host u) encodeHost)%string else buf
    else buf in
  let path := EscapedPath u in
  let buf :=
    if nonEmpty path && negb (startsWithSlash path) && nonEmpty (Host u)
    then (buf ++ "/")%string else buf in
  let buf :=
    if (String.length buf =? 0)%nat && firstSegmentHasColon path
    then (buf ++ "./")%string else buf in
  let buf := (buf ++ path)%string in
  if nonEmpty (RawQuery u) then (buf ++ "?" ++ RawQuery u)%string else buf.

End url.

Module io.

(** An [io.Reader], as used for one [Read(p)]: given [len(p)], the bytes
    stored at the front of [p] (their number is the returned [n]) and the
    returned error. *)
Record Reader : Type := { Read : nat -> list Byte.byte * option error }.

(** The buffer [p] after [Read] stored [data] at its front. *)
Definition fill (p data : list Byte.byte) : list Byte.byte :=
  let data := firstn (List.length p) data in
  data ++ skipn (List.length data) p.

End io.

Module rand.

(** [crypto/rand.Reader]. *)
Class Source : Type := { Reader : io.Reader }.

End rand.

(** The part of package [otp] that [Generate] calls: the [String] methods
    of [Algorithm] and [Digits], and [NewKeyFromURL] with the [Key] it
    builds. *)
Class otp_Package : Type := {
  Key : Type;
  NewKeyFromURL : string -> option Key * option error;
  Algorithm_String : otp.Algorithm -> string;
  Digits_String : otp.Digits -> string
}.

(** ** Package [totp]: key provisioning *)

Module GenerateOpts.

Record t : Type := {
  Issuer : string;
  AccountName : string;
  Period : Z;
  SecretSize : Z;
  Secret : list Byte.byte;
  Digits : otp.Digits;
  Algorithm : otp.Algorithm;
  Rand : option io.Reader
}.

End GenerateOpts.

Section Provisioning.

Context {otp_pkg : otp_Package} {rand_src : rand.Source}.

(** [Generate]: the returned pair [(key, err)], and the log of the reads
    made on the random source (the length asked of each [Read]). *)
Definition Generate (opts : GenerateOpts.t)
    : (option Key * option error) * list nat :=
  if (String.length (GenerateOpts.Issuer opts) =? 0)%nat then
    ((None, Some otp.ErrGenerateMissingIssuer), [])
  else if (String.length (GenerateOpts.AccountName opts) =? 0)%nat then
    ((None, Some otp.ErrGenerateMissingAccountName), [])
  else
    let Period :=
      if GenerateOpts.Period opts =? 0 then 30 else GenerateOpts.Period opts in
    let SecretSize :=
      if GenerateOpts.SecretSize opts =? 0 then 20 else GenerateOpts.SecretSize opts in
    let Digits :=
      if GenerateOpts.Digits opts =? 0 then otp.DigitsSix else GenerateOpts.Digits opts in
    let Rand :=
      match GenerateOpts.Rand opts with
      | None => rand.Reader
      | Some r => r
      end in
    let v : url.Values := [] in
    let '(v, reads, err) :=
      if negb (List.length (GenerateOpts.Secret opts) =? 0)%nat then
        (url.ValuesSet v "secret" (b32NoPadding_EncodeToString (GenerateOpts.Secret opts)),
         [], None)
      else
        let secret := repeat Byte.x00 (Z.to_nat SecretSize) in
        let '(data, err) := io.Read Rand (List.length secret) in
        let secret := io.fill secret data in
        match err with
        | Some e => (v, [Z.to_nat SecretSize], Some e)
        | None =>
            (url.ValuesSet v "secret" (b32NoPadding_EncodeToString secret),
             [Z.to_nat SecretSize], None)
        end in
    match err with
    | Some e => ((None, Some e), reads)
    | None =>
        let v := url.ValuesSet v "issuer" (GenerateOpts.Issuer opts) in
        let v := url.ValuesSet v "period" (strconv.FormatUint (uint64 Period)) in
        let v := url.ValuesSet v "algorithm"
                   (Algorithm_String (GenerateOpts.Algorithm opts)) in
        let v := url.ValuesSet v "digits" (Digits_String Digits) in
        let u :=
          {| url.Scheme := "otpauth";
             url.Host := "totp";
             url.Path := "/" ++ GenerateOpts.Issuer opts ++ ":"
                         ++ GenerateOpts.AccountName opts;
             url.RawQuery := url.Encode v |} in
        (NewKeyFromURL (url.String_ u), reads)
    end.

End Provisioning.

(** ** A reference instance of the collaborators

    Statements about [totp.go] quantify over the [hotp] interface.  To
    evaluate the code at concrete inputs the interface is instantiated with
    RFC 4226 itself: HOTP over HMAC-SHA-1 with dynamic truncation, the
    secret given in base32. *)

Module sha1.

Definition w32 (x : Z) : Z := x mod 2 ^ 32.

Definition rotl (n x : Z) : Z := w32 (Z.lor (Z.shiftl x n) (Z.shiftr x (32 - n))).

(** The [n] low bytes of [x], most significant first. *)
Fixpoint bigEndian (n : nat) (x : Z) : list Z :=
  match n with
  | O => []
  | S n' => (Z.shiftr x (8 * Z.of_nat n')) mod 256 :: bigEndian n' x
  end.

Definition pad (msg : list Z) : list Z :=
  let l := Z.of_nat (List.length msg) in
  msg ++ [128] ++ repeat 0 (Z.to_nat ((55 - l) mod 64)) ++ bigEndian 8 (8 * l).

(** The first [n] 32-bit big-endian words of a byte sequence. *)
Fixpoint words (n : nat) (bytes : list Z) : list Z :=
  match n with
  | O => []
  | S n' =>
      match bytes with
      | b0 :: b1 :: b2 :: b3 :: rest =>
          (b0 * 2 ^ 24 + b1 * 2 ^ 16 + b2 * 2 ^ 8 + b3) :: words n' rest
      | _ => []
      end
  end.

(** The message schedule extended by [n] words, most recent word first. *)
Fixpoint schedule (n : nat) (w : list Z) : list Z :=
  match n with
  | O => w
  | S n' =>
      let x := Z.lxor (Z.lxor (nth 2 w 0) (nth 7 w 0))
                      (Z.lxor (nth 13 w 0) (nth 15 w 0)) in
      schedule n' (rotl 1 x :: w)
  end.

Definition state : Type := Z * Z * Z * Z * Z.

Definition round (t : Z) (s : state) (wt : Z) : state :=
  let '(a, b, c, d, e) := s in
  let '(f, k) :=
    if t <? 20 then
      (Z.lor (Z.land b c) (Z.land (Z.lxor b 0xFFFFFFFF) d), 0x5A827999)
    else if t <? 40 then (Z.lxor (Z.lxor b c) d, 0x6ED9EBA1)
    else if t <? 60 then
      (Z.lor (Z.lor (Z.land b c) (Z.land b d)) (Z.land c d), 0x8F1BBCDC)
    else (Z.lxor (Z.lxor b c) d, 0xCA62C1D6) in
  (w32 (rotl 5 a + f + e + k + wt), a, rotl 30 b, c, d).

Fixpoint rounds (t : Z) (s : state) (w : list Z) : state :=
  match w with
  | [] => s
  | wt :: rest => rounds (t + 1) (round t s wt) rest
  end.

Definition block (h : state) (bytes : list Z) : state :=
  let w := rev (schedule 64 (rev (words 16 bytes))) in
  let '(a, b, c, d, e) := rounds 0 h w in
  let '(h0, h1, h2, h3, h4) := h in
  (w32 (h0 + a), w32 (h1 + b), w32 (h2 + c), w32 (h3 + d), w32 (h4 + e)).

Fixpoint blocks (n : nat) (h : state) (bytes : list Z) : state :=
  match n with
  | O => h
  | S n' => blocks n' (block h (firstn 64 bytes)) (skipn 64 bytes)
  end.

Definition Sum (msg : list Z) : list Z :=
  let p := pad msg in
  let '(h0, h1, h2, h3, h4) :=
    blocks (List.length p / 64)
           (0x67452301, 0xEFCDAB89, 0x98BADCFE, 0x10325476, 0xC3D2E1F0) p in
  bigEndian 4 h0 ++ bigEndian 4 h1 ++ bigEndian 4 h2 ++ bigEndian 4 h3
    ++ bigEndian 4 h4.

End sha1.

Module hmac.

(** HMAC-SHA-1 (RFC 2104). *)
Definition Sum (key msg : list Z) : list Z :=
  let key := if (64 <? List.length key)%nat then sha1.Sum key else key in
  let key := key ++ repeat 0 (64 - List.length key) in
  sha1.Sum (map (Z.lxor 0x5c) key ++ sha1.Sum (map (Z.lxor 0x36) key ++ msg)).

End hmac.

Module rfc4226.

Definition toUpper (c : ascii) : ascii :=
  let n := nat_of_ascii c in
  if ((97 <=? n) && (n <=? 122))%nat then ascii_of_nat (n - 32) else c.

Fixpoint indexOf (c : ascii) (alphabet : string) (i : nat) : option nat :=
  match alphabet with
  | EmptyString => None
  | String a rest => if Ascii.eqb a c then Some i else indexOf c rest (S i)
  end.

(** The five bits of a base32 digit, most significant first. *)
Definition bitsOfDigit (v : nat) : list bool :=
  map (fun i => Nat.testbit v i) [4; 3; 2; 1; 0]%nat.

(** The bits a base32 text stands for; padding is skipped, letters may be
    in lower case; [None] on any other character. *)
Fixpoint decodeBits (s : string) : option (list bool) :=
  match s with
  | EmptyString => Some []
  | String c rest =>
      if Ascii.eqb c "=" then decodeBits rest
      else
        match indexOf (toUpper c) base32.encodeStd 0, decodeBits rest with
        | Some v, Some bits => Some (bitsOfDigit v ++ bits)
        | _, _ => None
        end
  end.

(** The first [n] whole bytes of a bit sequence. *)
Fixpoint octets (n : nat) (bits : list bool) : list Z :=
  match n with
  | O => []
  | S n' => Z.of_nat (base32.valueOfBits (firstn 8 bits)) :: octets n' (skipn 8 bits)
  end.

Definition decodeSecret (secret : string) : option (list Z) :=
  match decodeBits secret with
  | Some bits => Some (octets (List.length bits / 8) bits)
  | None => None
  end.

(** [value] in decimal on exactly [n] characters, zeros in front. *)
Fixpoint format (n : nat) (value : Z) : string :=
  match n with
  | O => EmptyString
  | S n' =>
      String (ascii_of_nat (48 + Z.to_nat ((value / 10 ^ Z.of_nat n') mod 10)))
             (format n' value)
  end.

(** Dynamic truncation of a 20-byte digest. *)
Definition truncate (sum : list Z) : Z :=
  let offset := Z.to_nat (Z.land (nth 19 sum 0) 0xf) in
  Z.lor (Z.lor (Z.shiftl (Z.land (nth offset sum 0) 0x7f) 24)
               (Z.shiftl (nth (offset + 1) sum 0) 16))
        (Z.lor (Z.shiftl (nth (offset + 2) sum 0) 8) (nth (offset + 3) sum 0)).

Definition GenerateCodeCustom (secret : string) (counter : Z)
    (opts : hotp.ValidateOpts) : string * option error :=
  match decodeSecret secret with
  | None => (EmptyString, Some (otp.ErrExternal "secret is not base32"))
  | Some key =>
      if hotp.Algorithm opts =? otp.AlgorithmSHA1 then
        let value := truncate (hmac.Sum key (sha1.bigEndian 8 counter)) in
        let l := Z.to_nat (hotp.Digits opts) in
        (format l (value mod 10 ^ Z.of_nat l), None)
      else (EmptyString, Some (otp.ErrExternal "algorithm is not SHA1"))
  end.

Definition ValidateCustom (passcode : string) (counter : Z) (secret : string)
    (opts : hotp.ValidateOpts) : bool * option error :=
  if negb (String.length passcode =? Z.to_nat (hotp.Digits opts))%nat then
    (false, Some (otp.ErrExternal "input length unexpected"))
  else
    let '(otpstr, err) := GenerateCodeCustom secret counter opts in
    match err with
    | Some e => (false, Some e)
    | None => (String.eqb otpstr passcode, None)
    end.

Definition package : hotp.Package := {|
  hotp.GenerateCodeCustom := GenerateCodeCustom;
  hotp.ValidateCustom := ValidateCustom
|}.

End rfc4226.

(** Modelled from the spec: package [otp] lies outside [totp.go].
    "algorithm and digits rendered via their canonical string names, e.g.
    SHA1, 6"; the key object lets callers "re-serialize the URI", so the
    reference key is the URI string it was built from. *)
Definition otp_reference : otp_Package := {|
  Key := string;
  NewKeyFromURL := fun s => (Some s, None);
  Algorithm_String := fun a =>
    if a =? otp.AlgorithmSHA1 then "SHA1"%string
    else if a =? otp.AlgorithmSHA256 then "SHA256"%string
    else if a =? otp.AlgorithmSHA512 then "SHA512"%string
    else EmptyString;
  Digits_String := fun d => strconv.FormatUint d
|}.

(** Random sources for the examples: one that stores the bytes it is given
    (possibly fewer than asked) and reports no error, one that fails. *)
Definition readerOf (data : list Byte.byte) : io.Reader :=
  {| io.Read := fun n => (firstn n data, None) |}.

Definition failingReader (e : error) : io.Reader :=
  {| io.Read := fun _ => ([], Some e) |}.

Definition rand_reference : rand.Source := {|
  rand.Reader := readerOf (repeat Byte.x2a 64)
|}.

(** ** The window as the specification words it

    "the base counter itself, then for each [i] from 1 to [Skew] inclusive,
    both [base + i] and [base - i]", as unsigned 64-bit counters. *)
Definition claimedWindow (base : Z) (skew : nat) : list Z :=
  uint64 base
  :: flat_map (fun i => [uint64 (base + i); uint64 (base - i)])
              (map Z.of_nat (seq 1 skew)).

(** ** The URI [Generate] hands to [otp.NewKeyFromURL]

    [url.Values.Encode] writes the parameters in the order of their keys,
    each value query-escaped; [URL.String] escapes the path. *)
Definition provisioningQuery (issuer algorithm digits period secret : string) : string :=
  ("algorithm=" ++ url.QueryEscape algorithm
   ++ "&digits=" ++ url.QueryEscape digits
   ++ "&issuer=" ++ url.QueryEscape issuer
   ++ "&period=" ++ url.QueryEscape period
   ++ "&secret=" ++ url.QueryEscape secret)%string.

Definition provisioningURI (issuer accountName algorithm digits period secret : string)
  : string :=
  ("otpauth://totp"
   ++ url.escape ("/" ++ issuer ++ ":" ++ accountName) url.encodePath
   ++ "?" ++ provisioningQuery issuer algorithm digits period secret)%string.

(** Provisioning options with every field at its zero value but the issuer,
    the account name, the secret and the random source. *)
Definition exampleOpts (issuer accountName : string) (secret : list Byte.byte)
    (source : option io.Reader) : GenerateOpts.t :=
  {| GenerateOpts.Issuer := issuer;
     GenerateOpts.AccountName := accountName;
     GenerateOpts.Period := 0;
     GenerateOpts.SecretSize := 0;
     GenerateOpts.Secret := secret;
     GenerateOpts.Digits := 0;
     GenerateOpts.Algorithm := 0;
     GenerateOpts.Rand := source |}.

(** The ten bytes whose base32 text is [JBSWY3DPEHPK3PXP]. *)
Definition helloSecret : list Byte.byte :=
  [Byte.x48; Byte.x65; Byte.x6c; Byte.x6c; Byte.x6f; Byte.x21;
   Byte.xde; Byte.xad; Byte.xbe; Byte.xef].

(** * Properties *)

(** ** binary64 arithmetic

    The quotient of an integer below [2^53] in magnitude by a positive
    integer, computed in binary64 and floored, is the floor of the exact
    quotient.  First for a divisor below [2^53]: both operands convert
    exactly, and the rounding of the division cannot cross an integer. *)

Lemma digits2_pos_bounds (p : positive) :
  2 ^ (Zpos (digits2_pos p) - 1) <= Zpos p < 2 ^ Zpos (digits2_pos p).
Proof.
  induction p as [p IH | p IH |]; cbn [digits2_pos].
  - rewrite Pos2Z.inj_succ, Z.pow_succ_r by lia.
    replace (Z.succ (Zpos (digits2_pos p)) - 1) with (Z.succ (Zpos (digits2_pos p) - 1)) by lia.
    rewrite Z.pow_succ_r by lia. lia.
  - rewrite Pos2Z.inj_succ, Z.pow_succ_r by lia.
    replace (Z.succ (Zpos (digits2_pos p)) - 1) with (Z.succ (Zpos (digits2_pos p) - 1)) by lia.
    rewrite Z.pow_succ_r by lia. lia.
  - cbn. lia.
Qed.

Lemma digits2_pos_unique (p : positive) (d : Z) :
  2 ^ (d - 1) <= Zpos p < 2 ^ d -> Zpos (digits2_pos p) = d.
Proof.
  intros H. pose proof (digits2_pos_bounds p) as B.
  assert (0 < d) as Hd.
  { destruct (Z.ltb_spec 0 d) as [|Hn]; [assumption|].
    destruct (Z.eq_dec d 0) as [->|]; [cbn in H; lia|].
    rewrite (Z.pow_neg_r 2 d) in H by lia. lia. }
  destruct (Z.lt_trichotomy (Zpos (digits2_pos p)) d) as [Hlt | [Heq | Hgt]]; [|assumption|].
  - assert (2 ^ Zpos (digits2_pos p) <= 2 ^ (d - 1)) by (apply Z.pow_le_mono_r; lia). lia.
  - assert (2 ^ d <= 2 ^ (Zpos (digits2_pos p) - 1)) by (apply Z.pow_le_mono_r; lia). lia.
Qed.

Lemma iter_xO_mul (p k : positive) : Zpos (Pos.iter xO p k) = Zpos p * 2 ^ Zpos k.
Proof.
  induction k as [|k IH] using Pos.peano_ind.
  - cbn. lia.
  - rewrite Pos.iter_succ, Pos2Z.inj_xO, IH, Pos2Z.inj_succ, Z.pow_succ_r by lia. lia.
Qed.

Lemma fexp_normal (e : Z) : -1021 <= e -> fexp 53 1024 e = e - 53.
Proof. intros H. unfold fexp, emin. lia. Qed.

Lemma shr_fexp_53 (m : positive) (e : Z) (l : location) :
  2 ^ 52 <= Zpos m < 2 ^ 53 -> -1074 <= e ->
  shr_fexp 53 1024 (Zpos m) e l = (shr_record_of_loc (Zpos m) l, e).
Proof.
  intros Hm He. unfold shr_fexp. cbn [Zdigits2].
  rewrite (digits2_pos_unique m 53) by (cbn; lia).
  rewrite fexp_normal by lia.
  replace (53 + e - 53 - e) with 0 by lia. reflexivity.
Qed.

Lemma loc_of_shr_record_of_loc (m : Z) (l : location) :
  loc_of_shr_record (shr_record_of_loc m l) = l.
Proof. destruct l as [|[]]; reflexivity. Qed.

Lemma shr_m_of_loc (m : Z) (l : location) : shr_m (shr_record_of_loc m l) = m.
Proof. destruct l as [|[]]; reflexivity. Qed.

Lemma binary_round_aux_exact53 (s : bool) (m : positive) (e : Z) :
  2 ^ 52 <= Zpos m < 2 ^ 53 -> -1074 <= e <= 971 ->
  binary_round_aux 53 1024 s (Zpos m) e loc_Exact = S754_finite s m e.
Proof.
  intros Hm He. unfold binary_round_aux.
  rewrite shr_fexp_53 by lia. cbn [shr_record_of_loc shr_m loc_of_shr_record round_nearest_even].
  rewrite shr_fexp_53 by lia. cbn [shr_record_of_loc shr_m].
  replace (e <=? 1024 - 53) with true by (symmetry; apply Z.leb_le; lia).
  reflexivity.
Qed.

Lemma binary_round_small (s : bool) (p : positive) :
  Zpos p < 2 ^ 53 ->
  exists m, binary_round 53 1024 s p 0 = S754_finite s m (Zpos (digits2_pos p) - 53)
            /\ Zpos m = Zpos p * 2 ^ (53 - Zpos (digits2_pos p)).
Proof.
  intros Hp. pose proof (digits2_pos_bounds p) as B.
  set (d := Zpos (digits2_pos p)) in *.
  assert (d <= 53) as Hd.
  { destruct (Z.leb_spec d 53) as [|Hgt]; [assumption|].
    assert (2 ^ 53 <= 2 ^ (d - 1)) by (apply Z.pow_le_mono_r; lia). lia. }
  assert (0 < d) as Hd0 by (unfold d; lia).
  unfold binary_round. fold d. rewrite fexp_normal by lia.
  unfold shl_align.
  destruct (d + 0 - 53 - 0) as [|k|k] eqn:E.
  - assert (d = 53) as Hd53 by lia.
    exists p. rewrite binary_round_aux_exact53.
    + split; [f_equal; lia|]. rewrite Hd53. cbn. lia.
    + rewrite Hd53 in B. cbn in B |- *. lia.
    + lia.
  - lia.
  - exists (Pos.iter xO p k).
    assert (Zpos k = 53 - d) as Hk by lia.
    assert (Zpos (Pos.iter xO p k) = Zpos p * 2 ^ (53 - d)) as Hv
      by (rewrite iter_xO_mul, Hk; reflexivity).
    assert (2 ^ (d - 1) * 2 ^ (53 - d) = 2 ^ 52) as P1
      by (rewrite <- Z.pow_add_r by lia; f_equal; lia).
    assert (2 ^ d * 2 ^ (53 - d) = 2 ^ 53) as P2
      by (rewrite <- Z.pow_add_r by lia; f_equal; lia).
    assert (0 < 2 ^ (53 - d)) as P3 by (apply Z.pow_pos_nonneg; lia).
    rewrite binary_round_aux_exact53.
    + split; [f_equal; lia | exact Hv].
    + rewrite Hv. nia.
    + lia.
Qed.

Lemma new_location_spec (m2 r : Z) :
  0 < m2 -> 0 <= r < m2 ->
  new_location m2 r = if r =? 0 then loc_Exact else loc_Inexact (2 * r ?= m2).
Proof.
  intros Hm Hr. unfold new_location, new_location_even, new_location_odd.
  destruct (Z.even m2) eqn:Ev; destruct (Z.eqb_spec r 0) as [|Hr0]; try reflexivity.
  f_equal.
  assert (Z.odd m2 = true) as Hodd by (rewrite <- Z.negb_even, Ev; reflexivity).
  apply Z.odd_spec in Hodd. destruct Hodd as [k Hk].
  destruct (Z.compare_spec (2 * r + 1) m2); destruct (Z.compare_spec (2 * r) m2);
    try reflexivity; lia.
Qed.

Lemma shr_1_pos (p : positive) (r s : bool) :
  shr_1 (Build_shr_record (Zpos p) r s)
  = Build_shr_record (Z.div2 (Zpos p)) (Z.odd (Zpos p)) (r || s).
Proof. destruct p; reflexivity. Qed.

Lemma shr_fexp_54 (m : positive) (e : Z) (l : location) :
  2 ^ 53 <= Zpos m < 2 ^ 54 -> -1074 <= e ->
  shr_fexp 53 1024 (Zpos m) e l = (shr_1 (shr_record_of_loc (Zpos m) l), e + 1).
Proof.
  intros Hm He. unfold shr_fexp. cbn [Zdigits2].
  rewrite (digits2_pos_unique m 54) by (cbn; lia).
  rewrite fexp_normal by lia.
  replace (54 + e - 53 - e) with 1 by lia. reflexivity.
Qed.

(** Second rounding stage: a mantissa that rounding carried to [2^53] is
    renormalised. *)
Lemma round_final (s : bool) (M1 E1 : Z) :
  2 ^ 52 <= M1 <= 2 ^ 53 -> -1074 <= E1 <= 970 ->
  exists M E,
    (let '(mrs, e) := shr_fexp 53 1024 M1 E1 loc_Exact in
     match shr_m mrs with
     | Z0 => S754_zero s
     | Zpos m => if e <=? 1024 - 53 then S754_finite s m e else S754_infinity s
     | Zneg _ => S754_nan
     end) = S754_finite s M E
    /\ 2 ^ 52 <= Zpos M < 2 ^ 53
    /\ ((Zpos M = M1 /\ E = E1) \/ (M1 = 2 ^ 53 /\ Zpos M = 2 ^ 52 /\ E = E1 + 1)).
Proof.
  intros HM HE. destruct M1 as [|m|m]; try (cbn in HM; lia).
  destruct (Z.ltb_spec (Zpos m) (2 ^ 53)) as [Hlt | Hge].
  - exists m, E1. rewrite shr_fexp_53 by lia. cbn [shr_record_of_loc shr_m].
    replace (E1 <=? 1024 - 53) with true by (symmetry; apply Z.leb_le; lia).
    split; [reflexivity | split; [lia | left; split; reflexivity]].
  - assert (Zpos m = 2 ^ 53) as Hm by lia.
    rewrite shr_fexp_54 by (cbn in *; lia). cbn [shr_record_of_loc].
    rewrite shr_1_pos. cbn [shr_m]. rewrite Hm. cbn [Z.pow Z.pow_pos Pos.iter Z.mul Pos.mul Z.div2].
    exists (Z.to_pos (2 ^ 52)), (E1 + 1).
    replace (E1 + 1 <=? 1024 - 53) with true by (symmetry; apply Z.leb_le; lia).
    split; [reflexivity | split; [cbn; lia | right; repeat split; reflexivity]].
Qed.

Lemma div_mod_pos_unique (a b q r : Z) :
  0 <= r < b -> a = b * q + r -> a / b = q /\ a mod b = r.
Proof.
  intros Hr Ha. split.
  - symmetry. apply (Z.div_unique_pos a b q r); assumption.
  - symmetry. apply (Z.mod_unique_pos a b q r); assumption.
Qed.

(** First rounding stage of a quotient [q] with remainder [r] modulo [m2]:
    the mantissa is shifted by [sh] bits and rounded to nearest, ties to even. *)
Lemma round_first (q : positive) (m2 r e : Z) (mrs : shr_record) (e' : Z) :
  2 ^ 52 <= Zpos q < 2 ^ 54 -> 0 <= r < m2 -> -1074 <= e ->
  shr_fexp 53 1024 (Zpos q) e (if r =? 0 then loc_Exact else loc_Inexact (2 * r ?= m2))
    = (mrs, e') ->
  exists sh delta,
    (sh = 0 \/ sh = 1) /\ (delta = 0 \/ delta = 1) /\ e' = e + sh
    /\ round_nearest_even (shr_m mrs) (loc_of_shr_record mrs)
       = (Zpos q * m2 + r) / (m2 * 2 ^ sh) + delta
    /\ (delta = 1 -> m2 * 2 ^ sh <= 2 * ((Zpos q * m2 + r) mod (m2 * 2 ^ sh)))
    /\ (delta = 0 -> 2 * ((Zpos q * m2 + r) mod (m2 * 2 ^ sh)) <= m2 * 2 ^ sh)
    /\ 2 ^ 52 <= (Zpos q * m2 + r) / (m2 * 2 ^ sh) < 2 ^ 53.
Proof.
  intros Hq Hr He Hs.
  pose proof (Z.compare_spec (2 * r) m2) as Hcmp.
  remember (2 * r ?= m2) as c eqn:Ec. clear Ec.
  destruct (Z.ltb_spec (Zpos q) (2 ^ 53)) as [Hlt | Hge].
  - rewrite shr_fexp_53 in Hs by lia. injection Hs as <- <-.
    rewrite loc_of_shr_record_of_loc, shr_m_of_loc.
    destruct (div_mod_pos_unique (Zpos q * m2 + r) (m2 * 2 ^ 0) (Zpos q) r) as [Dq Dr];
      [change (2 ^ 0) with 1; lia | change (2 ^ 0) with 1; lia |].
    exists 0. rewrite Dq, Dr. change (2 ^ 0) with 1. rewrite Z.mul_1_r.
    destruct (Z.eqb_spec r 0) as [Hr0 | Hr0].
    + exists 0. cbn [round_nearest_even]. repeat split; lia.
    + destruct Hcmp as [Hc | Hc | Hc]; cbn [round_nearest_even].
      * destruct (Z.even (Zpos q)).
        -- exists 0. repeat split; lia.
        -- exists 1. repeat split; lia.
      * exists 0. repeat split; lia.
      * exists 1. repeat split; lia.
  - rewrite shr_fexp_54 in Hs by lia.
    pose proof (Z.div2_odd (Zpos q)) as Hodd.
    assert (forall rb st, shr_1 (Build_shr_record (Zpos q) rb st)
                          = Build_shr_record (Z.div2 (Zpos q)) (Z.odd (Zpos q)) (rb || st))
      as Hshr by (intros; apply shr_1_pos).
    remember (Z.div2 (Zpos q)) as q' eqn:Eq'. remember (Z.odd (Zpos q)) as b eqn:Eb0.
    clear Eq' Eb0.
    destruct (div_mod_pos_unique (Zpos q * m2 + r) (m2 * 2 ^ 1) q' (Z.b2z b * m2 + r))
      as [Dq Dr]; [destruct b; cbn [Z.b2z]; change (2 ^ 1) with 2; lia
                  | change (2 ^ 1) with 2; rewrite Hodd at 1; ring |].
    exists 1. rewrite Dq, Dr. change (2 ^ 1) with 2.
    assert (2 ^ 52 <= q' < 2 ^ 53) as Hq' by (destruct b; cbn [Z.b2z] in Hodd; lia).
    destruct (Z.eqb_spec r 0) as [Hr0 | Hr0].
    + cbn [shr_record_of_loc] in Hs. rewrite Hshr in Hs. injection Hs as <- <-.
      cbn [shr_m loc_of_shr_record orb].
      destruct b eqn:Eb; cbn [loc_of_shr_record round_nearest_even Z.b2z].
      * destruct (Z.even q').
        -- exists 0. repeat split; lia.
        -- exists 1. repeat split; lia.
      * exists 0. repeat split; lia.
    + assert (shr_1 (shr_record_of_loc (Zpos q) (loc_Inexact c))
              = Build_shr_record q' b true) as Hsh.
      { clear Hcmp Hs. destruct c; cbn [shr_record_of_loc]; rewrite Hshr;
          f_equal; apply orb_true_r. }
      rewrite Hsh in Hs. injection Hs as <- <-. cbn [shr_m].
      destruct b eqn:Eb; cbn [loc_of_shr_record round_nearest_even Z.b2z].
      * exists 1. repeat split; lia.
      * exists 0. repeat split; lia.
Qed.

Lemma SFdiv_normal (s1 s2 : bool) (m1 m2 : positive) (e1 e2 : Z) :
  2 ^ 52 <= Zpos m1 < 2 ^ 53 -> 2 ^ 52 <= Zpos m2 < 2 ^ 53 ->
  -1000 <= e1 - e2 <= 1000 ->
  exists M E sh delta,
    SFdiv 53 1024 (S754_finite s1 m1 e1) (S754_finite s2 m2 e2)
      = S754_finite (xorb s1 s2) M E
    /\ 2 ^ 52 <= Zpos M < 2 ^ 53
    /\ (sh = 0 \/ sh = 1) /\ (delta = 0 \/ delta = 1)
    /\ (delta = 1 -> Zpos m2 * 2 ^ sh <= 2 * ((Zpos m1 * 2 ^ 53) mod (Zpos m2 * 2 ^ sh)))
    /\ (delta = 0 -> 2 * ((Zpos m1 * 2 ^ 53) mod (Zpos m2 * 2 ^ sh)) <= Zpos m2 * 2 ^ sh)
    /\ ((Zpos M = (Zpos m1 * 2 ^ 53) / (Zpos m2 * 2 ^ sh) + delta
         /\ E = e1 - e2 - 53 + sh)
        \/ ((Zpos m1 * 2 ^ 53) / (Zpos m2 * 2 ^ sh) + delta = 2 ^ 53
            /\ Zpos M = 2 ^ 52 /\ E = e1 - e2 - 53 + sh + 1)).
Proof.
  intros H1 H2 He.
  unfold SFdiv, SFdiv_core_binary. cbn [Zdigits2].
  rewrite (digits2_pos_unique m1 53), (digits2_pos_unique m2 53) by (cbn; lia).
  rewrite fexp_normal by lia.
  replace (Z.min (53 + e1 - (53 + e2) - 53) (e1 - e2)) with (e1 - e2 - 53) by lia.
  replace (e1 - e2 - (e1 - e2 - 53)) with 53 by lia.
  rewrite Z.shiftl_mul_pow2 by lia.
  set (N := Zpos m1 * 2 ^ 53).
  pose proof (Z_div_mod N (Zpos m2) eq_refl) as Hdm.
  destruct (Z.div_eucl N (Zpos m2)) as [q r]. destruct Hdm as [HN Hr].
  assert (2 ^ 52 <= q < 2 ^ 54) as Hq by (unfold N in HN; nia).
  destruct q as [|q|q]; try (cbn in Hq; lia).
  rewrite new_location_spec by lia.
  unfold binary_round_aux.
  destruct (shr_fexp 53 1024 (Zpos q) (e1 - e2 - 53)
              (if r =? 0 then loc_Exact else loc_Inexact (2 * r ?= Zpos m2)))
    as [mrs e'] eqn:Hs.
  apply round_first in Hs; [|lia..].
  destruct Hs as (sh & delta & Hsh & Hdelta & -> & Hround & Hup & Hdown & Hrange).
  rewrite Hround.
  replace (Zpos q * Zpos m2 + r) with N in * by lia.
  destruct (round_final (xorb s1 s2) (N / (Zpos m2 * 2 ^ sh) + delta) (e1 - e2 - 53 + sh))
    as (M & E & Hfin & HM & Hcase); [lia | lia |].
  exists M, E, sh, delta. split; [exact Hfin|]. tauto.
Qed.

Lemma rounded_quotient_bounds (A B K delta : Z) :
  0 <= A -> 0 < B -> 0 < K -> B < 2 * K ->
  (delta = 0 \/ delta = 1) ->
  (delta = 1 -> B <= 2 * ((A * K) mod B)) ->
  (delta = 0 -> 2 * ((A * K) mod B) <= B) ->
  K * (A / B) <= (A * K) / B + delta < K * (A / B) + K
  /\ (A mod B = 0 -> (A * K) / B + delta = K * (A / B))
  /\ (A mod B <> 0 -> K * (A / B) < (A * K) / B + delta).
Proof.
  intros HA HB HK HBK Hd Hup Hdown.
  pose proof (Z.div_mod A B ltac:(lia)) as EA.
  pose proof (Z.mod_pos_bound A B HB) as RA.
  pose proof (Z.div_mod (A * K) B ltac:(lia)) as EK.
  pose proof (Z.mod_pos_bound (A * K) B HB) as RK.
  set (Q := A / B) in *. set (R := A mod B) in *.
  set (q1 := (A * K) / B) in *. set (r1 := (A * K) mod B) in *.
  assert (B * q1 + r1 = B * (K * Q) + R * K) as Hrel by (rewrite <- EK, EA at 1; ring).
  assert (K * Q <= q1) as Hlow by nia.
  assert (q1 < K * Q + K) as Hhigh by nia.
  split; [split|split].
  - lia.
  - destruct Hd as [-> | ->]; [lia|].
    specialize (Hup eq_refl).
    destruct (Z.eq_dec q1 (K * Q + K - 1)) as [Heq|]; [|lia].
    exfalso. nia.
  - intros HR0. assert (q1 = K * Q) by nia. assert (r1 = 0) by nia.
    destruct Hd as [-> | ->]; [lia|]. specialize (Hup eq_refl). lia.
  - intros HRn. destruct (Z.eq_dec q1 (K * Q)) as [Heq|]; [|lia].
    assert (r1 = R * K) by nia.
    destruct Hd as [-> | ->]; [|lia]. specialize (Hdown eq_refl). nia.
Qed.

Lemma rounded_quotient_floor (A B K delta : Z) (s : bool) :
  0 <= A -> 0 < B -> 0 < K -> B < 2 * K ->
  (delta = 0 \/ delta = 1) ->
  (delta = 1 -> B <= 2 * ((A * K) mod B)) ->
  (delta = 0 -> 2 * ((A * K) mod B) <= B) ->
  (if s then - ((A * K) / B + delta) else (A * K) / B + delta) / K
  = (if s then - A else A) / B.
Proof.
  intros HA HB HK HBK Hd Hup Hdown.
  destruct (rounded_quotient_bounds A B K delta HA HB HK HBK Hd Hup Hdown)
    as (Hb & Hz & Hnz).
  pose proof (Z.div_mod A B ltac:(lia)) as EA.
  pose proof (Z.mod_pos_bound A B HB) as RA.
  set (M := (A * K) / B + delta) in *.
  set (Q := A / B) in *. set (R := A mod B) in *.
  destruct s.
  - destruct (Z.eq_dec R 0) as [HR|HR].
    + rewrite (Hz HR).
      destruct (div_mod_pos_unique (- A) B (- Q) 0) as [-> _]; [lia | lia |].
      destruct (div_mod_pos_unique (- (K * Q)) K (- Q) 0) as [-> _]; [lia | lia |].
      reflexivity.
    + specialize (Hnz HR).
      destruct (div_mod_pos_unique (- A) B (- Q - 1) (B - R)) as [-> _]; [lia | lia |].
      destruct (div_mod_pos_unique (- M) K (- Q - 1) (K * (Q + 1) - M)) as [-> _];
        [lia | lia |].
      reflexivity.
  - destruct (div_mod_pos_unique M K Q (M - K * Q)) as [-> _]; [lia | lia |].
    reflexivity.
Qed.

Lemma trunc_binary_round (s : bool) (p : positive) :
  Zpos p < 2 ^ 53 ->
  float64_trunc (binary_round 53 1024 s p 0) = Some (cond_Zopp s (Zpos p)).
Proof.
  intros Hp. destruct (binary_round_small s p Hp) as (m & -> & Hm).
  pose proof (digits2_pos_bounds p) as B.
  set (d := Zpos (digits2_pos p)) in *.
  assert (0 < d) by (unfold d; lia).
  assert (d <= 53) as Hd.
  { destruct (Z.leb_spec d 53) as [|Hgt]; [assumption|].
    assert (2 ^ 53 <= 2 ^ (d - 1)) by (apply Z.pow_le_mono_r; lia). lia. }
  cbn [float64_trunc]. do 2 f_equal.
  destruct (Z.leb_spec 0 (d - 53)).
  - assert (d = 53) as Hd53 by lia. rewrite Hd53 in Hm |- *.
    change (2 ^ (53 - 53)) with 1 in *. lia.
  - rewrite Hm. replace (- (d - 53)) with (53 - d) by lia.
    apply Z.div_mul. apply Z.pow_nonzero; lia.
Qed.

Lemma trunc_binary_normalize (n : Z) (s : bool) :
  - 2 ^ 53 < n < 2 ^ 53 ->
  float64_trunc (binary_normalize 53 1024 n 0 s) = Some n.
Proof.
  intros Hn. destruct n as [|p|p]; cbn [binary_normalize].
  - reflexivity.
  - apply trunc_binary_round. lia.
  - rewrite trunc_binary_round by lia. reflexivity.
Qed.

Lemma floorZ_finite (s : bool) (M : positive) (E : Z) :
  Zpos M < 2 ^ 53 -> E <= 0 ->
  float64_trunc (math.Floor (S754_finite s M E)) = Some (cond_Zopp s (Zpos M) / 2 ^ (- E)).
Proof.
  intros HM HE. unfold math.Floor.
  destruct (Z.leb_spec 0 E).
  - replace E with 0 by lia. cbn [float64_trunc Z.leb Z.compare Z.opp].
    change (2 ^ 0) with 1. rewrite Z.mul_1_r, Z.div_1_r. reflexivity.
  - apply trunc_binary_normalize.
    assert (2 <= 2 ^ (- E)) as H2.
    { change 2 with (2 ^ 1) at 1. apply Z.pow_le_mono_r; lia. }
    destruct s; cbn [cond_Zopp].
    + split.
      * apply Z.lt_le_trans with (- Zpos M); [lia|].
        apply Z.div_le_lower_bound; [lia|]. nia.
      * apply Z.le_lt_trans with 0; [|lia].
        assert (Z.neg M / 2 ^ (- E) < 0); [|lia].
        apply Z.div_lt_upper_bound; lia.
    + split.
      * apply Z.lt_le_trans with 0; [lia|]. apply Z.div_pos; lia.
      * apply Z.le_lt_trans with (Zpos M); [|lia].
        apply Z.div_le_upper_bound; [lia|]. nia.
Qed.

Lemma digits_le_53 (p : positive) : Zpos p < 2 ^ 53 -> 0 < Zpos (digits2_pos p) <= 53.
Proof.
  intros Hp. pose proof (digits2_pos_bounds p) as B. split; [lia|].
  destruct (Z.leb_spec (Zpos (digits2_pos p)) 53) as [|Hgt]; [assumption|].
  assert (2 ^ 53 <= 2 ^ (Zpos (digits2_pos p) - 1)) by (apply Z.pow_le_mono_r; lia). lia.
Qed.

Lemma normalised_mantissa (p : positive) (m : Z) :
  Zpos p < 2 ^ 53 ->
  m = Zpos p * 2 ^ (53 - Zpos (digits2_pos p)) ->
  2 ^ 52 <= m < 2 ^ 53.
Proof.
  intros Hp ->. pose proof (digits2_pos_bounds p) as B.
  pose proof (digits_le_53 p Hp) as Hd.
  set (d := Zpos (digits2_pos p)) in *.
  assert (2 ^ (d - 1) * 2 ^ (53 - d) = 2 ^ 52) as P1
    by (rewrite <- Z.pow_add_r by lia; f_equal; lia).
  assert (2 ^ d * 2 ^ (53 - d) = 2 ^ 53) as P2
    by (rewrite <- Z.pow_add_r by lia; f_equal; lia).
  assert (0 < 2 ^ (53 - d)) as P3 by (apply Z.pow_pos_nonneg; lia).
  nia.
Qed.

Lemma floor_div_round (s : bool) (A B : positive) :
  Zpos A < 2 ^ 53 -> Zpos B < 2 ^ 53 ->
  float64_trunc (math.Floor (float64_div (binary_round 53 1024 s A 0)
                                         (binary_round 53 1024 false B 0)))
  = Some (cond_Zopp s (Zpos A) / Zpos B).
Proof.
  intros HA HB.
  destruct (binary_round_small s A HA) as (m1 & -> & Hm1).
  destruct (binary_round_small false B HB) as (m2 & -> & Hm2).
  pose proof (normalised_mantissa A (Zpos m1) HA Hm1) as N1.
  pose proof (normalised_mantissa B (Zpos m2) HB Hm2) as N2.
  pose proof (digits_le_53 A HA) as DA. pose proof (digits_le_53 B HB) as DB.
  pose proof (digits2_pos_bounds B) as BB.
  set (dA := Zpos (digits2_pos A)) in *. set (dB := Zpos (digits2_pos B)) in *.
  unfold float64_div.
  destruct (SFdiv_normal s false m1 m2 (dA - 53) (dB - 53) N1 N2 ltac:(lia))
    as (M & E & sh & delta & -> & HM & Hsh & Hdelta & Hup & Hdown & Hcase).
  rewrite xorb_false_r.
  set (E1 := dA - 53 - (dB - 53) - 53 + sh) in *.
  assert (E1 <= 0) as HE1 by (unfold E1; lia).
  set (K := 2 ^ (- E1)). set (c := 2 ^ (53 - dB + sh)).
  assert (0 < K) as HK by (apply Z.pow_pos_nonneg; lia).
  assert (0 < c) as Hc by (apply Z.pow_pos_nonneg; lia).
  assert (Zpos m1 * 2 ^ 53 = (Zpos A * K) * c) as HN.
  { rewrite Hm1. unfold K, c, E1. rewrite <- !Z.mul_assoc, <- !Z.pow_add_r by lia.
    do 2 f_equal. lia. }
  assert (Zpos m2 * 2 ^ sh = Zpos B * c) as HD.
  { rewrite Hm2. unfold c. rewrite <- Z.mul_assoc, <- Z.pow_add_r by lia. reflexivity. }
  rewrite HN, HD in *.
  rewrite Z.div_mul_cancel_r in Hcase by lia.
  rewrite Z.mul_mod_distr_r in Hup, Hdown by lia.
  assert (Zpos B < 2 * K) as HBK.
  { apply Z.lt_le_trans with (2 ^ dB); [lia|].
    unfold K. change 2 with (2 ^ 1) at 2. rewrite <- Z.pow_add_r by lia.
    apply Z.pow_le_mono_r; unfold E1; lia. }
  assert (delta = 1 -> Zpos B <= 2 * ((Zpos A * K) mod Zpos B)) as Hup' by nia.
  assert (delta = 0 -> 2 * ((Zpos A * K) mod Zpos B) <= Zpos B) as Hdown' by nia.
  pose proof (rounded_quotient_floor (Zpos A) (Zpos B) K delta s
                ltac:(lia) ltac:(lia) HK HBK Hdelta Hup' Hdown') as Hfloor.
  fold (cond_Zopp s ((Zpos A * K) / Zpos B + delta)) in Hfloor.
  fold (cond_Zopp s (Zpos A)) in Hfloor.
  destruct Hcase as [[HMeq ->] | (Hover & HMeq & ->)].
  - rewrite floorZ_finite by lia. fold K. rewrite HMeq. f_equal. exact Hfloor.
  - destruct (Z.eq_dec E1 0) as [E0 | En0].
    + exfalso. unfold K in *. rewrite E0 in *. change (2 ^ (- 0)) with 1 in *.
      assert (Zpos B = 1) as B1 by lia. rewrite B1 in *.
      rewrite Z.mod_1_r in Hup'. rewrite Z.div_1_r in Hover. lia.
    + rewrite floorZ_finite by lia. rewrite HMeq, <- Hfloor, Hover. f_equal.
      replace (- (E1 + 1)) with (- E1 - 1) by lia.
      assert (K = 2 * 2 ^ (- E1 - 1)) as HK2.
      { unfold K. change 2 with (2 ^ 1) at 2. rewrite <- Z.pow_add_r by lia. f_equal. lia. }
      rewrite HK2.
      assert (0 < 2 ^ (- E1 - 1)) by (apply Z.pow_pos_nonneg; lia).
      destruct s; cbn [cond_Zopp].
      * change (- 2 ^ 53) with (2 * - 2 ^ 52). rewrite Z.div_mul_cancel_l by lia. reflexivity.
      * change (2 ^ 53) with (2 * 2 ^ 52). rewrite Z.div_mul_cancel_l by lia. reflexivity.
Qed.

Lemma floor_div_small_period (a b : Z) :
  - 2 ^ 53 < a < 2 ^ 53 -> 0 < b < 2 ^ 53 ->
  float64_trunc (math.Floor (float64_div (float64_of_Z a) (float64_of_Z b))) = Some (a / b).
Proof.
  intros Ha Hb. unfold float64_of_Z.
  destruct b as [|B|B]; try lia.
  destruct a as [|A|A]; cbn [binary_normalize].
  - pose proof (binary_round_small false B ltac:(lia)) as (m2 & -> & _). reflexivity.
  - rewrite floor_div_round by lia. reflexivity.
  - rewrite floor_div_round by lia. reflexivity.
Qed.

(** *** Periods of [2^53] and more

    A period that large exceeds every time below [2^53] in magnitude, and
    so does its float64 image: the quotient is below one in magnitude. *)

Lemma shr_1_m (mrs : shr_record) :
  0 <= shr_m mrs -> shr_m (shr_1 mrs) = shr_m mrs / 2.
Proof.
  destruct mrs as [m r s]. cbn [shr_m]. intros Hm.
  destruct m as [|p|p]; [reflexivity | | lia].
  rewrite shr_1_pos. cbn [shr_m]. apply Z.div2_div.
Qed.

Lemma iter_pos_shr_1_m (k : positive) :
  forall mrs, 0 <= shr_m mrs ->
              shr_m (iter_pos shr_1 k mrs) = shr_m mrs / 2 ^ Zpos k.
Proof.
  induction k as [k IH | k IH |]; intros mrs Hm; cbn [iter_pos].
  - assert (0 < 2 ^ Zpos k) as Hk by (apply Z.pow_pos_nonneg; lia).
    assert (2 ^ Zpos k~1 = 2 * 2 ^ Zpos k * 2 ^ Zpos k) as Hpow.
    { replace (Zpos k~1) with (1 + Zpos k + Zpos k) by lia.
      rewrite !Z.pow_add_r by lia. reflexivity. }
    assert (0 <= shr_m (shr_1 mrs)) as H1
      by (rewrite shr_1_m by lia; apply Z.div_pos; lia).
    assert (0 <= shr_m (iter_pos shr_1 k (shr_1 mrs))) as H2
      by (rewrite IH by lia; apply Z.div_pos; lia).
    rewrite IH, IH, shr_1_m, Hpow by lia.
    rewrite !Z.div_div by lia. f_equal. ring.
  - assert (0 < 2 ^ Zpos k) as Hk by (apply Z.pow_pos_nonneg; lia).
    assert (2 ^ Zpos k~0 = 2 ^ Zpos k * 2 ^ Zpos k) as Hpow.
    { replace (Zpos k~0) with (Zpos k + Zpos k) by lia.
      rewrite Z.pow_add_r by lia. reflexivity. }
    assert (0 <= shr_m (iter_pos shr_1 k mrs)) as H2
      by (rewrite IH by lia; apply Z.div_pos; lia).
    rewrite IH, IH, Hpow by lia.
    rewrite Z.div_div by lia. reflexivity.
  - rewrite shr_1_m by lia. reflexivity.
Qed.

Lemma round_nearest_even_bounds (m : Z) (l : location) :
  m <= round_nearest_even m l <= m + 1.
Proof.
  destruct l as [|[]]; cbn [round_nearest_even]; try lia.
  destruct (Z.even m); lia.
Qed.

(** [float64(p)] for [2^53 <= p < 2^64]: a normal number of exponent 1 to
    12, hence of value [2^53] at least. *)
Lemma float64_of_Z_large (p : Z) :
  2 ^ 53 <= p < 2 ^ 64 ->
  exists m e, float64_of_Z p = S754_finite false m e
              /\ 2 ^ 52 <= Zpos m < 2 ^ 53 /\ 1 <= e <= 12.
Proof.
  intros Hp. destruct p as [|p|p]; try lia.
  unfold float64_of_Z. cbn [binary_normalize]. unfold binary_round.
  pose proof (digits2_pos_bounds p) as B.
  set (d := Zpos (digits2_pos p)) in *.
  assert (54 <= d <= 64) as Hd.
  { split.
    - destruct (Z.leb_spec 54 d) as [|Hlt]; [assumption|].
      assert (2 ^ d <= 2 ^ 53) by (apply Z.pow_le_mono_r; lia). lia.
    - destruct (Z.leb_spec d 64) as [|Hgt]; [assumption|].
      assert (2 ^ 64 <= 2 ^ (d - 1)) by (apply Z.pow_le_mono_r; lia). lia. }
  rewrite fexp_normal by lia.
  unfold shl_align.
  destruct (d + 0 - 53 - 0) as [|k|k] eqn:Ek; try lia.
  unfold binary_round_aux, shr_fexp. cbn [Zdigits2]. fold d.
  rewrite fexp_normal by lia.
  replace (d + 0 - 53 - 0) with (Zpos k) by lia.
  cbn [shr shr_record_of_loc].
  set (mrs := iter_pos shr_1 k {| shr_m := Zpos p; shr_r := false; shr_s := false |}).
  assert (shr_m mrs = Zpos p / 2 ^ Zpos k) as Hm
    by (unfold mrs; rewrite iter_pos_shr_1_m by (cbn; lia); reflexivity).
  assert (2 ^ 52 <= shr_m mrs < 2 ^ 53) as Hrange.
  { rewrite Hm.
    assert (0 < 2 ^ Zpos k) by (apply Z.pow_pos_nonneg; lia).
    assert (2 ^ (d - 1) = 2 ^ 52 * 2 ^ Zpos k) as P1
      by (rewrite <- Z.pow_add_r by lia; f_equal; lia).
    assert (2 ^ d = 2 ^ 53 * 2 ^ Zpos k) as P2
      by (rewrite <- Z.pow_add_r by lia; f_equal; lia).
    split.
    - apply Z.div_le_lower_bound; lia.
    - apply Z.div_lt_upper_bound; lia. }
  pose proof (round_nearest_even_bounds (shr_m mrs) (loc_of_shr_record mrs)) as Hr.
  destruct (round_final false (round_nearest_even (shr_m mrs) (loc_of_shr_record mrs))
              (0 + Zpos k) ltac:(lia) ltac:(lia)) as (M & E & Hfin & HM & Hcase).
  exists M, E. split; [exact Hfin|]. split; [exact HM|]. lia.
Qed.

(** The quotient of a normal number below [2^53] by one of value [2^53] or
    more is below one in magnitude. *)
Lemma floor_div_round_large (s : bool) (A m2 : positive) (e2 : Z) :
  Zpos A < 2 ^ 53 -> 2 ^ 52 <= Zpos m2 < 2 ^ 53 -> 1 <= e2 <= 12 ->
  float64_trunc (math.Floor (float64_div (binary_round 53 1024 s A 0)
                                         (S754_finite false m2 e2)))
  = Some (if s then - 1 else 0).
Proof.
  intros HA Hm2 He2.
  destruct (binary_round_small s A HA) as (m1 & -> & Hm1).
  pose proof (normalised_mantissa A (Zpos m1) HA Hm1) as N1.
  pose proof (digits_le_53 A HA) as DA.
  set (dA := Zpos (digits2_pos A)) in *.
  unfold float64_div.
  destruct (SFdiv_normal s false m1 m2 (dA - 53) e2 N1 Hm2 ltac:(lia))
    as (M & E & sh & delta & -> & HM & Hsh & Hdelta & Hup & Hdown & Hcase).
  rewrite xorb_false_r.
  assert (E <= - 53) as HE.
  { destruct Hcase as [[_ ->] | (Hover & _ & ->)]; [lia|].
    destruct (Z.eq_dec (dA - 53 - e2 - 53 + sh) (- 53)) as [E53|]; [|lia].
    exfalso.
    assert (sh = 1) as -> by lia.
    change (2 ^ 1) with 2 in *.
    pose proof (Z.div_mod (Zpos m1 * 2 ^ 53) (Zpos m2 * 2) ltac:(lia)) as Hdm.
    pose proof (Z.mod_pos_bound (Zpos m1 * 2 ^ 53) (Zpos m2 * 2) ltac:(lia)) as Hr.
    set (q := (Zpos m1 * 2 ^ 53) / (Zpos m2 * 2)) in *.
    set (r := (Zpos m1 * 2 ^ 53) mod (Zpos m2 * 2)) in *.
    destruct Hdelta as [-> | ->].
    - assert (q = 2 ^ 53) as Hq by lia. nia.
    - assert (q = 2 ^ 53 - 1) as Hq by lia. specialize (Hup eq_refl). nia. }
  rewrite floorZ_finite by lia. f_equal.
  assert (2 ^ 53 <= 2 ^ (- E)) as HK by (apply Z.pow_le_mono_r; lia).
  destruct s; cbn [cond_Zopp].
  - destruct (div_mod_pos_unique (- Zpos M) (2 ^ (- E)) (- 1) (2 ^ (- E) - Zpos M))
      as [Hq _]; [lia | lia |]. exact Hq.
  - apply Z.div_small. lia.
Qed.

Lemma floor_div_large_period (a b : Z) :
  - 2 ^ 53 < a < 2 ^ 53 -> 2 ^ 53 <= b < 2 ^ 64 ->
  float64_trunc (math.Floor (float64_div (float64_of_Z a) (float64_of_Z b)))
  = Some (a / b).
Proof.
  intros Ha Hb.
  destruct (float64_of_Z_large b Hb) as (m2 & e2 & -> & Hm2 & He2).
  unfold float64_of_Z.
  destruct a as [|A|A]; cbn [binary_normalize].
  - reflexivity.
  - rewrite floor_div_round_large by lia. f_equal. symmetry. apply Z.div_small. lia.
  - rewrite floor_div_round_large by lia. f_equal.
    destruct (div_mod_pos_unique (Zneg A) b (- 1) (b - Zpos A)) as [Hq _];
      [lia | lia |]. symmetry. exact Hq.
Qed.

Theorem floor_div_exact (a b : Z) :
  - 2 ^ 53 < a < 2 ^ 53 -> 0 < b < 2 ^ 64 ->
  float64_trunc (math.Floor (float64_div (float64_of_Z a) (float64_of_Z b)))
  = Some (a / b).
Proof.
  intros Ha Hb. destruct (Z.ltb_spec b (2 ^ 53)).
  - apply floor_div_small_period; lia.
  - apply floor_div_large_period; lia.
Qed.

(** ** Integer conversions *)

Lemma uint64_int64 (z : Z) : uint64 (int64 z) = uint64 z.
Proof.
  unfold uint64, int64. rewrite Zminus_mod_idemp_l. f_equal. lia.
Qed.

Lemma int64_small (z : Z) : - 2 ^ 63 <= z < 2 ^ 63 -> int64 z = z.
Proof.
  intros Hz. unfold int64. rewrite Z.mod_small by lia. lia.
Qed.

Lemma uint64_small (z : Z) : 0 <= z < 2 ^ 64 -> uint64 z = z.
Proof. intros Hz. apply Z.mod_small. exact Hz. Qed.

Lemma uint64_range (z : Z) : 0 <= uint64 z < 2 ^ 64.
Proof. apply Z.mod_pos_bound. reflexivity. Qed.

Lemma int64_range (z : Z) : - 2 ^ 63 <= int64 z < 2 ^ 63.
Proof.
  unfold int64. pose proof (Z.mod_pos_bound (z + 2 ^ 63) (2 ^ 64) eq_refl). lia.
Qed.

Lemma uint64_negative (z : Z) : - 2 ^ 64 <= z < 0 -> uint64 z = z + 2 ^ 64.
Proof.
  intros Hz. unfold uint64. symmetry.
  apply (Z.mod_unique_pos z (2 ^ 64) (- 1) (z + 2 ^ 64)); lia.
Qed.

Lemma quotient_bound (a b : Z) :
  - 2 ^ 53 < a < 2 ^ 53 -> 0 < b -> - 2 ^ 53 < a / b < 2 ^ 53.
Proof.
  intros Ha Hb. split.
  - apply Z.lt_le_trans with (- 2 ^ 53 + 1); [lia|].
    apply Z.div_le_lower_bound; [lia|]. nia.
  - apply Z.div_lt_upper_bound; [lia|]. nia.
Qed.

(** ** The counter (claim C3) *)

Section Counter.

Context {platform : Platform}.

Lemma periodQuotient_exact (t : time.Time) (opts : ValidateOpts.t) :
  - 2 ^ 53 < time.Unix t < 2 ^ 53 ->
  0 < ValidateOpts.Period opts < 2 ^ 64 ->
  float64_trunc (periodQuotient t opts)
  = Some (time.Unix t / ValidateOpts.Period opts).
Proof. intros Ht Hp. unfold periodQuotient. apply floor_div_exact; assumption. Qed.

Lemma validateCounter_exact (t : time.Time) (opts : ValidateOpts.t) :
  - 2 ^ 53 < time.Unix t < 2 ^ 53 ->
  0 < ValidateOpts.Period opts < 2 ^ 64 ->
  validateCounter t opts = time.Unix t / ValidateOpts.Period opts.
Proof.
  intros Ht Hp. unfold validateCounter, int64_of_float64.
  rewrite periodQuotient_exact by assumption.
  pose proof (quotient_bound _ (ValidateOpts.Period opts) Ht ltac:(lia)) as Hq.
  destruct (Z.leb_spec (- 2 ^ 63) (time.Unix t / ValidateOpts.Period opts));
    destruct (Z.ltb_spec (time.Unix t / ValidateOpts.Period opts) (2 ^ 63));
    cbn [andb]; try reflexivity; lia.
Qed.

Lemma generateCounter_exact (t : time.Time) (opts : ValidateOpts.t) :
  0 <= time.Unix t < 2 ^ 53 ->
  0 < ValidateOpts.Period opts < 2 ^ 64 ->
  generateCounter t opts = time.Unix t / ValidateOpts.Period opts.
Proof.
  intros Ht Hp. unfold generateCounter, uint64_of_float64.
  rewrite periodQuotient_exact by lia.
  pose proof (quotient_bound (time.Unix t) (ValidateOpts.Period opts)
                ltac:(lia) ltac:(lia)) as Hq.
  assert (0 <= time.Unix t / ValidateOpts.Period opts) by (apply Z.div_pos; lia).
  destruct (Z.leb_spec 0 (time.Unix t / ValidateOpts.Period opts));
    destruct (Z.ltb_spec (time.Unix t / ValidateOpts.Period opts) (2 ^ 64));
    cbn [andb]; try reflexivity; lia.
Qed.

Lemma generateCounter_pre_epoch (t : time.Time) (opts : ValidateOpts.t) :
  - 2 ^ 53 < time.Unix t < 0 ->
  0 < ValidateOpts.Period opts < 2 ^ 64 ->
  generateCounter t opts
  = uint64 (uint64_of_float64_unrepresentable (periodQuotient t opts)).
Proof.
  intros Ht Hp. unfold generateCounter, uint64_of_float64.
  rewrite periodQuotient_exact by lia.
  assert (time.Unix t / ValidateOpts.Period opts < 0)
    by (apply Z.div_lt_upper_bound; lia).
  destruct (Z.leb_spec 0 (time.Unix t / ValidateOpts.Period opts));
    cbn [andb]; [lia | reflexivity].
Qed.

End Counter.

(** C3 (amended): when the Unix time is below [2^53] in magnitude (so that
    it converts to float64 exactly), for every positive period the counter
    of [ValidateCustom] is [floor(Unix(t) / Period)], which its conversion to
    [uint64] represents modulo [2^64]; the counter of [GenerateCodeCustom]
    is [floor(Unix(t) / Period)] from the epoch on; before the epoch it is
    what the platform makes of converting a negative float64 to [uint64]:
    the two's complement [2^64 + floor(Unix(t) / Period)] on amd64, and 0
    on arm64.  Both are values of pure functions: no error, no effect. *)
Theorem C3_counter_is_floor_quotient {platform : Platform}
    (t : time.Time) (opts : ValidateOpts.t) :
  - 2 ^ 53 < time.Unix t < 2 ^ 53 ->
  0 < ValidateOpts.Period opts < 2 ^ 64 ->
  validateCounter t opts = time.Unix t / ValidateOpts.Period opts
  /\ uint64 (validateCounter t opts)
     = (time.Unix t / ValidateOpts.Period opts) mod 2 ^ 64
  /\ (0 <= time.Unix t ->
      generateCounter t opts = time.Unix t / ValidateOpts.Period opts
      /\ generateCounter t opts = uint64 (validateCounter t opts))
  /\ (time.Unix t < 0 ->
      @generateCounter amd64 t opts
      = 2 ^ 64 + time.Unix t / ValidateOpts.Period opts
      /\ @generateCounter amd64 t opts = uint64 (@validateCounter amd64 t opts)
      /\ @generateCounter arm64 t opts = 0).
Proof.
  intros Ht Hp.
  pose proof (validateCounter_exact t opts Ht Hp) as Hv.
  pose proof (quotient_bound (time.Unix t) (ValidateOpts.Period opts)
                ltac:(lia) ltac:(lia)) as Hq.
  split; [exact Hv|]. split; [rewrite Hv; reflexivity|]. split.
  - intros H0. pose proof (generateCounter_exact t opts ltac:(lia) Hp) as Hg.
    split; [exact Hg|]. rewrite Hg, Hv. symmetry. apply uint64_small.
    assert (0 <= time.Unix t / ValidateOpts.Period opts) by (apply Z.div_pos; lia).
    lia.
  - intros Hneg.
    assert (time.Unix t / ValidateOpts.Period opts < 0) as Hq0
        by (apply Z.div_lt_upper_bound; lia).
    pose proof (periodQuotient_exact t opts Ht Hp) as Hfloor.
    assert (@generateCounter amd64 t opts
            = 2 ^ 64 + time.Unix t / ValidateOpts.Period opts) as Hamd.
    { rewrite (@generateCounter_pre_epoch amd64) by (assumption || lia).
      cbn [uint64_of_float64_unrepresentable amd64]. unfold amd64_uint64.
      rewrite Hfloor.
      destruct (Z.leb_spec (- 2 ^ 63) (time.Unix t / ValidateOpts.Period opts));
        destruct (Z.ltb_spec (time.Unix t / ValidateOpts.Period opts) 0);
        cbn [andb]; try lia.
      rewrite uint64_negative by lia. lia. }
    split; [exact Hamd|]. split.
    + rewrite Hamd, (@validateCounter_exact amd64) by assumption.
      rewrite uint64_negative by lia. lia.
    + rewrite (@generateCounter_pre_epoch arm64) by (assumption || lia).
      cbn [uint64_of_float64_unrepresentable arm64]. unfold arm64_uint64.
      rewrite Hfloor.
      destruct (Z.ltb_spec (time.Unix t / ValidateOpts.Period opts) 0); [|lia].
      reflexivity.
Qed.

(** The claim as stated fails beyond [2^53]: [float64(2^53 + 1)] is [2^53],
    so with a period of one second both counters are [2^53], not
    [2^53 + 1].  And before the epoch the counter of [GenerateCodeCustom]
    depends on the platform: on arm64 it is 0 one second before the epoch,
    where [floor(-1 / 30)] is [-1]. *)
Lemma C3_counter_beyond_float_precision :
  let t := {| time.Unix := 2 ^ 53 + 1 |} in
  let opts := resolveOpts [WithPeriod 1] in
  let t' := {| time.Unix := - 1 |} in
  let opts' := resolveOpts [] in
  @generateCounter amd64 t opts <> uint64 (time.Unix t / ValidateOpts.Period opts)
  /\ uint64 (@validateCounter amd64 t opts)
     <> uint64 (time.Unix t / ValidateOpts.Period opts)
  /\ @generateCounter arm64 t' opts'
     <> uint64 (time.Unix t' / ValidateOpts.Period opts').
Proof. vm_compute. repeat split; discriminate. Qed.

(** The theorem before the epoch and after it: 59 seconds before, the
    quotient is [-2] and the counters are [2^64 - 2] on amd64 and 0 on
    arm64; 59 seconds after, every counter is 1. *)
Lemma C3_witness :
  (@validateCounter amd64 {| time.Unix := - 59 |} (resolveOpts []) = - 2
   /\ uint64 (@validateCounter amd64 {| time.Unix := - 59 |} (resolveOpts []))
      = 2 ^ 64 - 2
   /\ @generateCounter amd64 {| time.Unix := - 59 |} (resolveOpts []) = 2 ^ 64 - 2
   /\ @generateCounter arm64 {| time.Unix := - 59 |} (resolveOpts []) = 0)
  /\ (@validateCounter arm64 {| time.Unix := 59 |} (resolveOpts []) = 1
      /\ @generateCounter arm64 {| time.Unix := 59 |} (resolveOpts []) = 1).
Proof.
  assert (0 < ValidateOpts.Period (resolveOpts []) < 2 ^ 64) as Hp by (cbn; lia).
  split.
  - destruct (@C3_counter_is_floor_quotient amd64 {| time.Unix := - 59 |}
                (resolveOpts []) ltac:(cbn; lia) Hp) as (Hv & Hu & _ & Hpre).
    destruct (Hpre ltac:(cbn; lia)) as (Hamd & _ & Harm).
    split; [exact Hv|]. split; [exact Hu|]. split; [exact Hamd | exact Harm].
  - destruct (@C3_counter_is_floor_quotient arm64 {| time.Unix := 59 |}
                (resolveOpts []) ltac:(cbn; lia) Hp) as (Hv & _ & Hpost & _).
    destruct (Hpost ltac:(cbn; lia)) as (Hg & _).
    split; [exact Hv | exact Hg].
Defined.

(** ** The validation window and loop (claims C1, C2, C10) *)

Lemma claimedWindow_length (base : Z) (skew : nat) :
  List.length (claimedWindow base skew) = (2 * skew + 1)%nat.
Proof.
  unfold claimedWindow. cbn [List.length].
  assert (forall l : list Z,
             List.length (flat_map (fun i => [uint64 (base + i); uint64 (base - i)]) l)
             = (2 * List.length l)%nat) as Hflat.
  { induction l as [|x l IH]; cbn [flat_map List.length app]; [reflexivity | lia]. }
  rewrite Hflat, length_map, length_seq. lia.
Qed.

Lemma claimedWindow_nth (base : Z) (skew : nat) (i : nat) :
  (1 <= i <= skew)%nat ->
  nth_error (claimedWindow base skew) (2 * i - 1) = Some (uint64 (base + Z.of_nat i))
  /\ nth_error (claimedWindow base skew) (2 * i) = Some (uint64 (base - Z.of_nat i)).
Proof.
  unfold claimedWindow. intros Hi.
  assert (forall n start k, (k < n)%nat ->
             nth_error (flat_map (fun i => [uint64 (base + i); uint64 (base - i)])
                                 (map Z.of_nat (seq start n))) (2 * k)
             = Some (uint64 (base + Z.of_nat (start + k)))
             /\ nth_error (flat_map (fun i => [uint64 (base + i); uint64 (base - i)])
                                    (map Z.of_nat (seq start n))) (2 * k + 1)
                = Some (uint64 (base - Z.of_nat (start + k)))) as Hflat.
  { induction n as [|n IH]; intros start k Hk; [lia|].
    cbn [seq map flat_map app].
    destruct k as [|k].
    - cbn [Nat.mul Nat.add nth_error]. rewrite Nat.add_0_r. split; reflexivity.
    - replace (2 * S k)%nat with (S (S (2 * k))) by lia.
      replace (S (S (2 * k)) + 1)%nat with (S (S (2 * k + 1))) by lia.
      cbn [nth_error]. replace (start + S k)%nat with (S start + k)%nat by lia.
      apply IH. lia. }
  destruct i as [|i]; [lia|].
  specialize (Hflat skew 1%nat i ltac:(lia)).
  replace (2 * S i - 1)%nat with (S (2 * i)) by lia.
  replace (2 * S i)%nat with (S (2 * i + 1)) by lia.
  cbn [nth_error]. replace (1 + i)%nat with (S i) in Hflat by lia. exact Hflat.
Qed.

Lemma appendSkew_spec (counter : Z) (n : nat) :
  forall (i : Z) (counters : list Z),
    1 <= i -> i + Z.of_nat n <= MaxInt ->
    appendSkew counter i n counters
    = counters ++ flat_map (fun j => [uint64 (counter + j); uint64 (counter - j)])
                           (map Z.of_nat (seq (Z.to_nat i) n)).
Proof.
  unfold MaxInt.
  induction n as [|n IH]; intros i counters Hi Hn.
  - cbn [appendSkew seq map flat_map]. rewrite app_nil_r. reflexivity.
  - cbn [appendSkew seq map flat_map]. unfold int.
    rewrite !uint64_int64, !(int64_small i), (int64_small (i + 1)) by lia.
    rewrite IH by lia.
    rewrite <- !app_assoc. cbn [app].
    rewrite Z2Nat.id by lia.
    replace (Z.to_nat (i + 1)) with (S (Z.to_nat i)) by lia.
    reflexivity.
Qed.

Lemma windowCounters_spec (counter skew : Z) :
  int skew < 2 ^ 62 ->
  windowCounters counter skew = Some (claimedWindow counter (Z.to_nat (int skew))).
Proof.
  intros Hs. unfold windowCounters.
  destruct (Z.ltb_spec MaxInt (2 * int skew + 1)) as [Hbig|_];
    [unfold MaxInt in Hbig; lia|].
  f_equal. cbn [app]. unfold claimedWindow.
  pose proof (int64_range skew) as Hr. fold (int skew) in Hr.
  destruct (Z.leb_spec 0 (int skew)).
  - rewrite appendSkew_spec by (unfold MaxInt in *; lia). reflexivity.
  - replace (Z.to_nat (int skew)) with 0%nat by lia. reflexivity.
Qed.

Lemma windowCounters_none (counter skew : Z) :
  2 ^ 62 <= int skew -> windowCounters counter skew = None.
Proof.
  intros Hs. unfold windowCounters.
  destruct (Z.ltb_spec MaxInt (2 * int skew + 1)) as [_|Hsmall];
    [reflexivity | unfold MaxInt in Hsmall; lia].
Qed.

Section Validation.

Context {platform : Platform} {hotp_pkg : hotp.Package}.

Variables (passcode secret : string) (hopts : hotp.ValidateOpts).

Lemma validateLoop_exhausted (counters : list Z) :
  forall calls,
    (forall c, In c counters ->
               hotp.ValidateCustom passcode c secret hopts = (false, None)) ->
    validateLoop passcode secret hopts counters calls
    = ((false, None), calls ++ counters).
Proof.
  induction counters as [|c rest IH]; intros calls Hall; cbn [validateLoop].
  - rewrite app_nil_r. reflexivity.
  - rewrite (Hall c (or_introl eq_refl)).
    rewrite IH by (intros c' Hc'; apply Hall; right; exact Hc').
    rewrite <- app_assoc. reflexivity.
Qed.

Lemma validateLoop_match (pre : list Z) :
  forall calls c post,
    (forall c', In c' pre ->
                hotp.ValidateCustom passcode c' secret hopts = (false, None)) ->
    hotp.ValidateCustom passcode c secret hopts = (true, None) ->
    validateLoop passcode secret hopts (pre ++ c :: post) calls
    = ((true, None), calls ++ pre ++ [c]).
Proof.
  induction pre as [|p pre IH]; intros calls c post Hpre Hc; cbn [validateLoop app].
  - rewrite Hc. reflexivity.
  - rewrite (Hpre p (or_introl eq_refl)).
    rewrite IH by (try assumption; intros c' Hc'; apply Hpre; right; exact Hc').
    rewrite <- app_assoc. reflexivity.
Qed.

Lemma validateLoop_error (pre : list Z) :
  forall calls c post rv e,
    (forall c', In c' pre ->
                hotp.ValidateCustom passcode c' secret hopts = (false, None)) ->
    hotp.ValidateCustom passcode c secret hopts = (rv, Some e) ->
    validateLoop passcode secret hopts (pre ++ c :: post) calls
    = ((false, Some e), calls ++ pre ++ [c]).
Proof.
  induction pre as [|p pre IH]; intros calls c post rv e Hpre Hc;
    cbn [validateLoop app].
  - rewrite Hc. reflexivity.
  - rewrite (Hpre p (or_introl eq_refl)).
    rewrite (IH _ _ _ rv e)
      by (try assumption; intros c' Hc'; apply Hpre; right; exact Hc').
    rewrite <- app_assoc. reflexivity.
Qed.

End Validation.

Section ValidationLog.

Context {platform : Platform} {hotp_pkg : hotp.Package}.

Variables (passcode secret : string) (hopts : hotp.ValidateOpts).

(** The calls made are the candidates up to the one the loop stopped at,
    and a call that reported an error is the last one made. *)
Lemma validateLoop_log (counters : list Z) :
  forall calls0,
  exists res done rest,
    validateLoop passcode secret hopts counters calls0 = (res, calls0 ++ done)
    /\ counters = done ++ rest
    /\ (forall pre c post rv e,
           done = pre ++ c :: post ->
           hotp.ValidateCustom passcode c secret hopts = (rv, Some e) ->
           res = (false, Some e) /\ post = []).
Proof.
  induction counters as [|c rest IH]; intros calls0; cbn [validateLoop].
  - exists (false, None), [], []. rewrite app_nil_r.
    split; [reflexivity|]. split; [reflexivity|].
    intros pre c post rv e Hd. destruct pre; discriminate Hd.
  - destruct (hotp.ValidateCustom passcode c secret hopts) as [rv [e|]] eqn:Hc.
    + exists (false, Some e), [c], rest.
      split; [reflexivity|]. split; [reflexivity|].
      intros pre c' post rv' e' Hd Hc'.
      destruct pre as [|x pre]; [|destruct pre; discriminate Hd].
      injection Hd as <- <-. rewrite Hc in Hc'. injection Hc' as _ <-.
      split; reflexivity.
    + destruct rv.
      * exists (true, None), [c], rest.
        split; [reflexivity|]. split; [reflexivity|].
        intros pre c' post rv' e' Hd Hc'.
        destruct pre as [|x pre]; [|destruct pre; discriminate Hd].
        injection Hd as <- <-. rewrite Hc in Hc'. discriminate Hc'.
      * destruct (IH (calls0 ++ [c])) as (res & done & rest' & Hrun & Hsplit & Herr).
        exists res, (c :: done), rest'.
        rewrite Hrun, <- app_assoc. split; [reflexivity|].
        split; [rewrite Hsplit; reflexivity|].
        intros pre c' post rv' e' Hd Hc'.
        destruct pre as [|x pre].
        -- injection Hd as <- _. rewrite Hc in Hc'. discriminate Hc'.
        -- injection Hd as _ Hd. exact (Herr pre c' post rv' e' Hd Hc').
Qed.

(** A candidate all of whose predecessors neither matched nor failed is
    passed to the primitive. *)
Lemma validateLoop_reaches (pre : list Z) :
  forall calls0 c post,
    (forall c', In c' pre ->
                hotp.ValidateCustom passcode c' secret hopts = (false, None)) ->
    exists res rest,
      validateLoop passcode secret hopts (pre ++ c :: post) calls0
      = (res, calls0 ++ pre ++ c :: rest).
Proof.
  induction pre as [|p pre IH]; intros calls0 c post Hpre; cbn [validateLoop app].
  - destruct (hotp.ValidateCustom passcode c secret hopts) as [rv [e|]] eqn:Hc.
    + exists (false, Some e), []. reflexivity.
    + destruct rv.
      * exists (true, None), []. reflexivity.
      * destruct (validateLoop_log post (calls0 ++ [c]))
          as (res & done & rest' & Hrun & _ & _).
        exists res, done. rewrite Hrun, <- app_assoc. reflexivity.
  - rewrite (Hpre p (or_introl eq_refl)).
    destruct (IH (calls0 ++ [p]) c post) as (res & rest & Hrun);
      [intros c' Hc'; apply Hpre; right; exact Hc'|].
    exists res, rest. rewrite Hrun, <- app_assoc. reflexivity.
Qed.

End ValidationLog.

(** C1 (amended): [int] and [uint] having 64 bits, for a Unix time below
    [2^53] in magnitude, a positive period and a resolved skew [s] below
    [2^62] (so that the [2*s + 1] candidates fit a slice),
    [ValidateCustom] builds the candidates [base], [base+1], [base-1], ..., [base+s], [base-s] with
    [base = floor(Unix(t) / Period)], each as a [uint64] (modulo [2^64]),
    [2*s + 1] of them; it passes them to [hotp.ValidateCustom] in that
    order; on the first match it returns [(true, nil)] and makes no further
    call; when no candidate matches and none fails it returns
    [(false, nil)] after calling on the whole window. *)
Theorem C1_window_order_and_short_circuit
    {platform : Platform} {hotp_pkg : hotp.Package}
    (passcode secret : string) (t : time.Time) (validateOpts : list ValidateOpt) :
  let opts := resolveOpts validateOpts in
  let base := time.Unix t / ValidateOpts.Period opts in
  let skew := ValidateOpts.Skew opts in
  let hopts := {| hotp.Digits := ValidateOpts.Digits opts;
                  hotp.Algorithm := ValidateOpts.Algorithm opts |} in
  let window := claimedWindow base (Z.to_nat skew) in
  - 2 ^ 53 < time.Unix t < 2 ^ 53 ->
  0 < ValidateOpts.Period opts < 2 ^ 64 ->
  0 <= skew < 2 ^ 62 ->
  windowCounters (validateCounter t opts) skew = Some window
  /\ Z.of_nat (List.length window) = 2 * skew + 1
  /\ (forall pre c post,
         window = pre ++ c :: post ->
         (forall c', In c' pre ->
                     hotp.ValidateCustom passcode c' secret hopts = (false, None)) ->
         hotp.ValidateCustom passcode c secret hopts = (true, None) ->
         ValidateCustom passcode secret t validateOpts
         = Some ((true, None), pre ++ [c]))
  /\ ((forall c, In c window ->
                 hotp.ValidateCustom passcode c secret hopts = (false, None)) ->
      ValidateCustom passcode secret t validateOpts = Some ((false, None), window)).
Proof.
  intros opts base skew hopts window Ht Hp Hs.
  assert (int skew = skew) as Hint by (apply int64_small; lia).
  assert (windowCounters (validateCounter t opts) skew = Some window) as Hw.
  { rewrite windowCounters_spec by lia.
    rewrite Hint, validateCounter_exact by assumption. reflexivity. }
  split; [exact Hw|]. split.
  { unfold window. rewrite claimedWindow_length. lia. }
  split.
  - intros pre c post Hsplit Hpre Hc. unfold ValidateCustom.
    fold opts skew hopts. rewrite Hw, Hsplit.
    rewrite (validateLoop_match passcode secret hopts pre [] c post Hpre Hc).
    reflexivity.
  - intros Hall. unfold ValidateCustom. fold opts skew hopts. rewrite Hw.
    rewrite (validateLoop_exhausted passcode secret hopts window [] Hall).
    reflexivity.
Qed.

(** The claim as stated fails for times beyond [2^53] (the base is the
    rounded quotient) and for a skew of [2^63] or more ([int(opts.Skew)] is
    then negative and the loop body never runs).  Between [2^62] and
    [2^63] the window cannot be built at all. *)
Lemma C1_window_differs_for_large_inputs :
  let t := {| time.Unix := 2 ^ 53 + 1 |} in
  let opts := resolveOpts [WithPeriod 1; WithSkew 1] in
  let opts' := resolveOpts [WithSkew (2 ^ 63)] in
  windowCounters (@validateCounter amd64 t opts) (ValidateOpts.Skew opts)
    <> Some (claimedWindow (time.Unix t / ValidateOpts.Period opts)
                           (Z.to_nat (ValidateOpts.Skew opts)))
  /\ windowCounters (@validateCounter amd64 {| time.Unix := 59 |} opts')
                    (ValidateOpts.Skew opts') = Some [1]
  /\ 2 * ValidateOpts.Skew opts' + 1 <> 1.
Proof. vm_compute. repeat split; discriminate. Qed.

Lemma C1_witness :
  @ValidateCustom amd64 rfc4226.package "996554" "JBSWY3DPEHPK3PXP"
    {| time.Unix := 90 |} [WithSkew 2]
  = Some ((true, None), [3; 4; 2; 5] ++ [1]).
Proof.
  assert (- 2 ^ 53 < 90 < 2 ^ 53) as Ht by lia.
  assert (0 < 30 < 2 ^ 64) as Hp by lia.
  assert (0 <= 2 < 2 ^ 62) as Hs by lia.
  assert (forall c', In c' [3; 4; 2; 5] ->
            rfc4226.ValidateCustom "996554" c' "JBSWY3DPEHPK3PXP"
              {| hotp.Digits := 6; hotp.Algorithm := 0 |} = (false, None)) as Hpre.
  { intros c' [<- | [<- | [<- | [<- | []]]]]; vm_compute; reflexivity. }
  assert (rfc4226.ValidateCustom "996554" 1 "JBSWY3DPEHPK3PXP"
            {| hotp.Digits := 6; hotp.Algorithm := 0 |} = (true, None)) as Hc
    by (vm_compute; reflexivity).
  exact (proj1 (proj2 (proj2
           (@C1_window_order_and_short_circuit amd64 rfc4226.package
              "996554" "JBSWY3DPEHPK3PXP" {| time.Unix := 90 |} [WithSkew 2]
              Ht Hp Hs)))
           [3; 4; 2; 5] 1 [] eq_refl Hpre Hc).
Defined.

(** C2: whatever the input, a call to [hotp.ValidateCustom] that reports an
    error is the last call [ValidateCustom] makes, and [ValidateCustom]
    returns [(false, that error)]: the candidates after it in the window are
    not tried.  (When [int(Skew)] is [2^62] or more the window cannot be
    built, the call does not return and the primitive is not called at
    all.) *)
Theorem C2_error_aborts_validation
    {platform : Platform} {hotp_pkg : hotp.Package}
    (passcode secret : string) (t : time.Time) (validateOpts : list ValidateOpt) :
  let opts := resolveOpts validateOpts in
  let hopts := {| hotp.Digits := ValidateOpts.Digits opts;
                  hotp.Algorithm := ValidateOpts.Algorithm opts |} in
  let window := claimedWindow (validateCounter t opts)
                              (Z.to_nat (int (ValidateOpts.Skew opts))) in
  (2 ^ 62 <= int (ValidateOpts.Skew opts) ->
   ValidateCustom passcode secret t validateOpts = None)
  /\ (int (ValidateOpts.Skew opts) < 2 ^ 62 ->
      (exists res calls rest,
          ValidateCustom passcode secret t validateOpts = Some (res, calls)
          /\ window = calls ++ rest
          /\ (forall pre c post rv e,
                 calls = pre ++ c :: post ->
                 hotp.ValidateCustom passcode c secret hopts = (rv, Some e) ->
                 res = (false, Some e) /\ post = []))
      /\ (forall pre c post rv e,
             window = pre ++ c :: post ->
             (forall c', In c' pre ->
                         hotp.ValidateCustom passcode c' secret hopts = (false, None)) ->
             hotp.ValidateCustom passcode c secret hopts = (rv, Some e) ->
             ValidateCustom passcode secret t validateOpts
             = Some ((false, Some e), pre ++ [c]))).
Proof.
  intros opts hopts window. split.
  - intros Hmax. unfold ValidateCustom. fold opts.
    rewrite windowCounters_none by exact Hmax. reflexivity.
  - intros Hskew.
    assert (windowCounters (validateCounter t opts) (ValidateOpts.Skew opts)
            = Some window) as Hw by (apply windowCounters_spec; exact Hskew).
    split.
    + destruct (validateLoop_log passcode secret hopts window [])
        as (res & done & rest & Hrun & Hsplit & Herr).
      exists res, done, rest. unfold ValidateCustom. fold opts hopts.
      rewrite Hw, Hrun. cbn [app].
      split; [reflexivity|]. split; [exact Hsplit | exact Herr].
    + intros pre c post rv e Hsplit Hpre Hc. unfold ValidateCustom.
      fold opts hopts. rewrite Hw, Hsplit.
      rewrite (validateLoop_error passcode secret hopts pre [] c post rv e Hpre Hc).
      reflexivity.
Qed.

(** An instance of C2: a secret that is not base32 makes the primitive fail
    on the base counter; the other sixty candidates of the default window
    are not tried. *)
Lemma C2_witness :
  @ValidateCustom amd64 rfc4226.package "996554" "not base32!"
    {| time.Unix := 59 |} []
  = Some ((false, Some (otp.ErrExternal "secret is not base32")), [] ++ [1]).
Proof.
  assert (int (ValidateOpts.Skew (resolveOpts [])) < 2 ^ 62) as Hskew
    by (vm_compute; reflexivity).
  refine (proj2 (proj2 (@C2_error_aborts_validation amd64 rfc4226.package
                          "996554" "not base32!" {| time.Unix := 59 |} []) Hskew)
            [] 1 _ false _ _ _ _).
  - vm_compute. reflexivity.
  - intros c' [].
  - vm_compute. reflexivity.
Defined.

(** C10: when the window can be built ([int(Skew)] below [2^62]), a
    window candidate [base - i] that is negative as an [int64] is stored in
    the window as that value plus [2^64] (its conversion to
    [uint64]), at position [2*i]; it is not skipped, and the primitive is
    called on it unless an earlier candidate matched or failed.  Here [base]
    is the counter [ValidateCustom] computes, which is
    [floor(Unix(t) / Period)] for times below [2^53] in magnitude. *)
Theorem C10_negative_candidate_wraps
    {platform : Platform} {hotp_pkg : hotp.Package}
    (passcode secret : string) (t : time.Time) (validateOpts : list ValidateOpt)
    (i : Z) :
  let opts := resolveOpts validateOpts in
  let hopts := {| hotp.Digits := ValidateOpts.Digits opts;
                  hotp.Algorithm := ValidateOpts.Algorithm opts |} in
  let base := validateCounter t opts in
  let skew := int (ValidateOpts.Skew opts) in
  let wrapped := int64 (base - int64 i) + 2 ^ 64 in
  skew < 2 ^ 62 ->
  1 <= i <= skew ->
  int64 (base - int64 i) < 0 ->
  exists window,
    windowCounters base (ValidateOpts.Skew opts) = Some window
    /\ nth_error window (Z.to_nat (2 * i)) = Some wrapped
    /\ 2 ^ 63 <= wrapped < 2 ^ 64
    /\ wrapped = (base - i) mod 2 ^ 64
    /\ ((forall c', In c' (firstn (Z.to_nat (2 * i)) window) ->
                    hotp.ValidateCustom passcode c' secret hopts = (false, None)) ->
        exists res calls,
          ValidateCustom passcode secret t validateOpts = Some (res, calls)
          /\ nth_error calls (Z.to_nat (2 * i)) = Some wrapped)
    /\ (- 2 ^ 53 < time.Unix t < 2 ^ 53 ->
        0 < ValidateOpts.Period opts < 2 ^ 64 ->
        base = time.Unix t / ValidateOpts.Period opts).
Proof.
  intros opts hopts base skew wrapped Hskew Hi Hneg.
  pose proof (int64_range (ValidateOpts.Skew opts)) as Hr.
  fold (int (ValidateOpts.Skew opts)) in Hr. fold skew in Hr.
  assert (int64 i = i) as Hii by (apply int64_small; lia).
  pose proof (int64_range (base - int64 i)) as Hb.
  assert (wrapped = uint64 (base - i)) as Hwrap.
  { unfold wrapped. rewrite Hii in *. rewrite <- (uint64_int64 (base - i)).
    symmetry. apply uint64_negative. lia. }
  exists (claimedWindow base (Z.to_nat skew)).
  assert (windowCounters base (ValidateOpts.Skew opts)
          = Some (claimedWindow base (Z.to_nat skew))) as Hw
    by (apply windowCounters_spec; exact Hskew).
  assert (nth_error (claimedWindow base (Z.to_nat skew)) (Z.to_nat (2 * i))
          = Some wrapped) as Hnth.
  { destruct (claimedWindow_nth base (Z.to_nat skew) (Z.to_nat i) ltac:(lia)) as [_ Hn].
    replace (Z.to_nat (2 * i)) with (2 * Z.to_nat i)%nat by lia.
    rewrite Hn, Hwrap. do 2 f_equal. lia. }
  split; [exact Hw|]. split; [exact Hnth|]. split; [unfold wrapped; lia|].
  split; [exact Hwrap|]. split.
  - intros Hpre.
    destruct (nth_error_split _ _ Hnth) as (l1 & l2 & Hsplit & Hlen).
    rewrite Hsplit, <- Hlen, firstn_app, firstn_all, Nat.sub_diag in Hpre.
    cbn [firstn] in Hpre. rewrite app_nil_r in Hpre.
    destruct (validateLoop_reaches passcode secret hopts l1 [] wrapped l2 Hpre)
      as (res & rest & Hrun).
    exists res, (l1 ++ wrapped :: rest).
    unfold ValidateCustom. fold opts hopts base. rewrite Hw, Hsplit, Hrun.
    split; [reflexivity|].
    rewrite <- Hlen, nth_error_app2, Nat.sub_diag by lia. reflexivity.
  - intros Ht Hp. apply validateCounter_exact; assumption.
Qed.

Lemma C10_witness :
  exists window,
    windowCounters (@validateCounter amd64 {| time.Unix := 30 |} (resolveOpts [WithSkew 2]))
                   2 = Some window
    /\ nth_error window 4 = Some (2 ^ 64 - 1).
Proof.
  assert (int 2 < 2 ^ 62) as Hskew by (vm_compute; reflexivity).
  assert (1 <= 2 <= int 2) as Hi by (vm_compute; split; discriminate).
  assert (int64 (1 - int64 2) < 0) as Hneg by (vm_compute; reflexivity).
  destruct (@C10_negative_candidate_wraps amd64 rfc4226.package
              "000000" "JBSWY3DPEHPK3PXP" {| time.Unix := 30 |} [WithSkew 2] 2
              Hskew Hi Hneg) as (window & Hw & Hn & _).
  exists window. split; [exact Hw | exact Hn].
Defined.

(** ** Round trip (claim C9) *)

(** C9 (amended): if [hotp.ValidateCustom] accepts the code
    [hotp.GenerateCodeCustom] produced for the same secret, the same
    counter and the same digits and algorithm, then for every time whose
    floored float64 quotient [q] lies in [0, 2^63) (every time from the
    epoch on with [Unix(t)] below [2^53], among others) and every option
    set whose resolved skew, as an [int] of 64 bits, is below [2^62] (so
    that the window can be built), a passcode [GenerateCodeCustom] produced
    is accepted by [ValidateCustom] with the same secret, time and options:
    it returns [(true, nil)] on its first call to the primitive. *)
Theorem C9_generate_then_validate
    {platform : Platform} {hotp_pkg : hotp.Package}
    (secret : string) (t : time.Time) (validateOpts : list ValidateOpt)
    (passcode : string) (q : Z) :
  let opts := resolveOpts validateOpts in
  let hopts := {| hotp.Digits := ValidateOpts.Digits opts;
                  hotp.Algorithm := ValidateOpts.Algorithm opts |} in
  (forall code,
      hotp.GenerateCodeCustom secret q hopts = (code, None) ->
      hotp.ValidateCustom code q secret hopts = (true, None)) ->
  int (ValidateOpts.Skew opts) < 2 ^ 62 ->
  float64_trunc (periodQuotient t opts) = Some q ->
  0 <= q < 2 ^ 63 ->
  GenerateCodeCustom secret t validateOpts = (passcode, None) ->
  ValidateCustom passcode secret t validateOpts = Some ((true, None), [q]).
Proof.
  intros opts hopts Hround Hskew Hq Hrange Hgen.
  assert (generateCounter t opts = q) as Hg.
  { unfold generateCounter, uint64_of_float64. rewrite Hq.
    destruct (Z.leb_spec 0 q); destruct (Z.ltb_spec q (2 ^ 64));
      cbn [andb]; try reflexivity; lia. }
  assert (validateCounter t opts = q) as Hv.
  { unfold validateCounter, int64_of_float64. rewrite Hq.
    destruct (Z.leb_spec (- 2 ^ 63) q); destruct (Z.ltb_spec q (2 ^ 63));
      cbn [andb]; try reflexivity; lia. }
  unfold GenerateCodeCustom in Hgen. fold opts hopts in Hgen. rewrite Hg in Hgen.
  destruct (hotp.GenerateCodeCustom secret q hopts)
    as [code [e|]] eqn:Hcode; [discriminate Hgen|].
  injection Hgen as ->.
  specialize (Hround passcode eq_refl).
  unfold ValidateCustom. fold opts hopts. rewrite Hv.
  rewrite windowCounters_spec by exact Hskew.
  unfold claimedWindow. rewrite uint64_small by lia.
  match goal with
  | |- context [validateLoop _ _ hopts (q :: ?post) []] =>
      rewrite (validateLoop_match passcode secret hopts [] [] q post)
  end.
  - reflexivity.
  - intros c' [].
  - exact Hround.
Qed.

Lemma rfc4226_format_length (n : nat) (value : Z) :
  String.length (rfc4226.format n value) = n.
Proof.
  induction n as [|n IH]; cbn [rfc4226.format String.length]; [reflexivity|].
  rewrite IH. reflexivity.
Qed.

(** The reference primitive accepts the codes it generates. *)
Lemma rfc4226_accepts_generated (secret : string) (counter : Z)
    (o : hotp.ValidateOpts) (code : string) :
  rfc4226.GenerateCodeCustom secret counter o = (code, None) ->
  rfc4226.ValidateCustom code counter secret o = (true, None).
Proof.
  intros Hgen. unfold rfc4226.ValidateCustom.
  assert (String.length code = Z.to_nat (hotp.Digits o)) as Hlen.
  { unfold rfc4226.GenerateCodeCustom in Hgen.
    destruct (rfc4226.decodeSecret secret); [|discriminate Hgen].
    destruct (hotp.Algorithm o =? otp.AlgorithmSHA1); [|discriminate Hgen].
    injection Hgen as <-. apply rfc4226_format_length. }
  rewrite Hlen, Nat.eqb_refl, Hgen, String.eqb_refl. reflexivity.
Qed.

Lemma C9_witness :
  @ValidateCustom amd64 rfc4226.package "996554" "JBSWY3DPEHPK3PXP"
    {| time.Unix := 59 |} []
  = Some ((true, None), [1]).
Proof.
  apply (@C9_generate_then_validate amd64 rfc4226.package "JBSWY3DPEHPK3PXP"
           {| time.Unix := 59 |} [] "996554" 1).
  - intros code. apply rfc4226_accepts_generated.
  - vm_compute. reflexivity.
  - vm_compute. reflexivity.
  - lia.
  - vm_compute. reflexivity.
Defined.

(** The claim as stated fails in two ways.  With [WithSkew(1<<63 - 1)] the
    code is generated but the window loop of [ValidateCustom] has no exit
    (from [1<<62] on the window cannot be built).
    And before the epoch the two counters are converted differently
    ([uint64(f)] against [uint64(int64(f))]): on arm64 the code is generated
    for counter 0, which the window around [2^64 - 100] does not hold. *)
Lemma C9_generated_code_not_validated :
  (@GenerateCodeCustom amd64 rfc4226.package "JBSWY3DPEHPK3PXP"
     {| time.Unix := 59 |} [WithSkew MaxInt] = ("996554"%string, None)
   /\ option_map fst
        (@ValidateCustom amd64 rfc4226.package "996554" "JBSWY3DPEHPK3PXP"
           {| time.Unix := 59 |} [WithSkew MaxInt])
      <> Some (true, None))
  /\ (@GenerateCodeCustom arm64 rfc4226.package "JBSWY3DPEHPK3PXP"
        {| time.Unix := - 3000 |} [] = ("282760"%string, None)
      /\ option_map fst
           (@ValidateCustom arm64 rfc4226.package "282760" "JBSWY3DPEHPK3PXP"
              {| time.Unix := - 3000 |} [])
         <> Some (true, None)).
Proof. vm_compute. repeat split; discriminate. Qed.

(** ** Default options (claims C4, C5) *)

(** C4: after the option functions have run, [defaultOpts] replaces a zero
    [Period] by 30, a zero [Skew] by 30 (the constant of the period
    default, not a window of 1), a zero [Digits] by 6, and leaves
    [Algorithm] alone, whose zero value is SHA1.  With no option at all the
    window of [ValidateCustom] therefore has 61 candidates. *)
Theorem C4_default_filling (validateOpts : list ValidateOpt) :
  let given := fold_left (fun opts opt => opt opts) validateOpts ValidateOpts.zero in
  let opts := resolveOpts validateOpts in
  ValidateOpts.Period opts
    = (if ValidateOpts.Period given =? 0 then 30 else ValidateOpts.Period given)
  /\ ValidateOpts.Skew opts
     = (if ValidateOpts.Skew given =? 0 then 30 else ValidateOpts.Skew given)
  /\ ValidateOpts.Digits opts
     = (if ValidateOpts.Digits given =? 0 then otp.DigitsSix
        else ValidateOpts.Digits given)
  /\ ValidateOpts.Algorithm opts
     = (if ValidateOpts.Algorithm given =? 0 then otp.AlgorithmSHA1
        else ValidateOpts.Algorithm given)
  /\ resolveOpts []
     = {| ValidateOpts.Period := 30; ValidateOpts.Skew := 30;
          ValidateOpts.Digits := 6; ValidateOpts.Algorithm := otp.AlgorithmSHA1 |}
  /\ ValidateOpts.Skew (resolveOpts []) <> 1
  /\ (forall (platform : Platform) (t : time.Time),
         option_map (@List.length Z)
           (windowCounters (validateCounter t (resolveOpts []))
                           (ValidateOpts.Skew (resolveOpts [])))
         = Some 61%nat).
Proof.
  intros given opts.
  assert (forall P : ValidateOpts.t -> Prop,
             (forall s d p,
                 s = (if ValidateOpts.Skew given =? 0 then 30
                      else ValidateOpts.Skew given) ->
                 d = (if ValidateOpts.Digits given =? 0 then otp.DigitsSix
                      else ValidateOpts.Digits given) ->
                 p = (if ValidateOpts.Period given =? 0 then 30
                      else ValidateOpts.Period given) ->
                 P {| ValidateOpts.Period := p; ValidateOpts.Skew := s;
                      ValidateOpts.Digits := d;
                      ValidateOpts.Algorithm := ValidateOpts.Algorithm given |}) ->
             P opts) as Hshape.
  { intros P HP. unfold opts, resolveOpts. fold given. unfold defaultOpts.
    destruct given as [p s d a].
    cbn [ValidateOpts.Skew ValidateOpts.Digits ValidateOpts.Period
         ValidateOpts.Algorithm] in *.
    destruct (s =? 0) eqn:Es;
      cbn [ValidateOpts.Skew ValidateOpts.Digits ValidateOpts.Period
           ValidateOpts.Algorithm];
      destruct (d =? 0) eqn:Ed;
      cbn [ValidateOpts.Skew ValidateOpts.Digits ValidateOpts.Period
           ValidateOpts.Algorithm];
      destruct (p =? 0) eqn:Ep;
      apply HP; rewrite ?Es, ?Ed, ?Ep; reflexivity. }
  split; [apply Hshape; intros s d p _ _ ->; reflexivity|].
  split; [apply Hshape; intros s d p -> _ _; reflexivity|].
  split; [apply Hshape; intros s d p _ -> _; reflexivity|].
  split.
  { apply Hshape. intros s d p _ _ _. cbn [ValidateOpts.Algorithm].
    destruct (Z.eqb_spec (ValidateOpts.Algorithm given) 0) as [Ha|Ha];
      [exact Ha | reflexivity]. }
  split; [reflexivity|].
  split; [vm_compute; discriminate|].
  intros platform t. rewrite windowCounters_spec by (vm_compute; reflexivity).
  cbn [option_map]. rewrite claimedWindow_length. reflexivity.
Qed.

(** C5 (what the code does on the scenario): with the secret
    [JBSWY3DPEHPK3PXP], Unix time 59, a period of 30, six digits and SHA1
    the counter is 1 and the code is 996554; it validates at time 59.  But
    [WithSkew(0)] leaves [Skew] at zero, [defaultOpts] makes it 30, and at
    time 90 the window around counter 3 reaches counter 1 on the fifth
    call: the stale code is accepted. *)
Theorem C5_skew_zero_is_replaced_by_thirty :
  let secret := "JBSWY3DPEHPK3PXP"%string in
  let validateOpts := [WithPeriod 30; WithSkew 0; WithDigits otp.DigitsSix;
                       WithAlgorithm otp.AlgorithmSHA1] in
  @generateCounter amd64 {| time.Unix := 59 |} (resolveOpts validateOpts) = 1
  /\ @GenerateCodeCustom amd64 rfc4226.package secret {| time.Unix := 59 |}
       validateOpts = ("996554"%string, None)
  /\ option_map fst
       (@ValidateCustom amd64 rfc4226.package "996554" secret
          {| time.Unix := 59 |} validateOpts) = Some (true, None)
  /\ ValidateOpts.Skew (resolveOpts validateOpts) = 30
  /\ @ValidateCustom amd64 rfc4226.package "996554" secret
       {| time.Unix := 90 |} validateOpts = Some ((true, None), [3; 4; 2; 5; 1]).
Proof. vm_compute. repeat split. Qed.

(** ** Key provisioning (claims C6, C7, C8) *)

Lemma string_append_assoc (a b c : string) : ((a ++ b) ++ c = a ++ (b ++ c))%string.
Proof.
  induction a as [|x a IH]; cbn [append]; [reflexivity | rewrite IH; reflexivity].
Qed.

Lemma string_nonempty_length (s : string) :
  s <> EmptyString -> (String.length s =? 0)%nat = false.
Proof. destruct s; [contradiction | reflexivity]. Qed.

Lemma Encode_provisioning (issuer algorithm digits period secret : string) :
  url.Encode
    (url.ValuesSet
       (url.ValuesSet
          (url.ValuesSet
             (url.ValuesSet (url.ValuesSet [] "secret" secret) "issuer" issuer)
             "period" period)
          "algorithm" algorithm)
       "digits" digits)
  = provisioningQuery issuer algorithm digits period secret.
Proof.
  change (url.ValuesSet
            (url.ValuesSet
               (url.ValuesSet
                  (url.ValuesSet (url.ValuesSet [] "secret" secret) "issuer" issuer)
                  "period" period)
               "algorithm" algorithm)
            "digits" digits)
    with [("secret"%string, [secret]); ("issuer"%string, [issuer]);
          ("period"%string, [period]); ("algorithm"%string, [algorithm]);
          ("digits"%string, [digits])].
  unfold url.Encode.
  change (url.sortKeys _)
    with [("algorithm"%string, [algorithm]); ("digits"%string, [digits]);
          ("issuer"%string, [issuer]); ("period"%string, [period]);
          ("secret"%string, [secret])].
  cbn [fold_left fst snd url.encodeKey].
  change (url.QueryEscape "algorithm") with "algorithm"%string.
  change (url.QueryEscape "digits") with "digits"%string.
  change (url.QueryEscape "issuer") with "issuer"%string.
  change (url.QueryEscape "period") with "period"%string.
  change (url.QueryEscape "secret") with "secret"%string.
  cbn [append String.length Nat.eqb].
  unfold provisioningQuery.
  rewrite !string_append_assoc. cbn [append]. reflexivity.
Qed.

Section ProvisioningProperties.

Context {otp_pkg : otp_Package} {rand_src : rand.Source}.

(** C6: an empty [Issuer] yields [ErrGenerateMissingIssuer]; with an
    issuer, an empty [AccountName] yields [ErrGenerateMissingAccountName].
    In both cases no key is returned and the random source is not read
    (the checks are the first statements of [Generate]). *)
Theorem C6_missing_issuer_or_account (opts : GenerateOpts.t) :
  (GenerateOpts.Issuer opts = EmptyString ->
   Generate opts = ((None, Some otp.ErrGenerateMissingIssuer), []))
  /\ (GenerateOpts.Issuer opts <> EmptyString ->
      GenerateOpts.AccountName opts = EmptyString ->
      Generate opts = ((None, Some otp.ErrGenerateMissingAccountName), [])).
Proof.
  split.
  - intros Hi. unfold Generate. rewrite Hi. reflexivity.
  - intros Hi Ha. unfold Generate.
    rewrite (string_nonempty_length _ Hi), Ha. reflexivity.
Qed.

(** The half of C7 the code implements: an error of the random source is
    returned as it is, with no key. *)
Lemma Generate_random_source_error (opts : GenerateOpts.t) (e : error) :
  let secretSize :=
    if GenerateOpts.SecretSize opts =? 0 then 20 else GenerateOpts.SecretSize opts in
  let source :=
    match GenerateOpts.Rand opts with None => rand.Reader | Some r => r end in
  GenerateOpts.Issuer opts <> EmptyString ->
  GenerateOpts.AccountName opts <> EmptyString ->
  GenerateOpts.Secret opts = [] ->
  snd (io.Read source (Z.to_nat secretSize)) = Some e ->
  Generate opts = ((None, Some e), [Z.to_nat secretSize]).
Proof.
  intros secretSize source Hi Ha Hs Hread. unfold Generate.
  rewrite (string_nonempty_length _ Hi), (string_nonempty_length _ Ha), Hs.
  fold secretSize source. rewrite repeat_length.
  destruct (io.Read source (Z.to_nat secretSize)) as [data err].
  cbn [snd] in Hread. rewrite Hread. reflexivity.
Qed.


End ProvisioningProperties.

Lemma C6_witness :
  @Generate otp_reference rand_reference
    (exampleOpts "Example" EmptyString helloSecret None)
  = ((None, Some otp.ErrGenerateMissingAccountName), []).
Proof.
  apply (proj2 (@C6_missing_issuer_or_account otp_reference rand_reference
                  (exampleOpts "Example" EmptyString helloSecret None))).
  - discriminate.
  - reflexivity.
Defined.

(** C7 (what the code does on a short read): a source that stores one byte and
    reports no error.  [Generate] discards the count [Read] returns, so the
    key is built from the buffer as it stands: the byte read and nineteen
    zero bytes. *)
Theorem C7_short_read_is_not_detected :
  let source := readerOf [Byte.x01] in
  let opts := exampleOpts "Example" "alice@example.com" [] (Some source) in
  io.Read source 20 = ([Byte.x01], None)
  /\ @Generate otp_reference rand_reference opts
     = ((Some ("otpauth://totp/Example:alice@example.com?algorithm=SHA1&digits=6"
               ++ "&issuer=Example&period=30"
               ++ "&secret=AEAAAAAAAAAAAAAAAAAAAAAAAAAAAAAA")%string, None),
        [20%nat]).
Proof. vm_compute. split; reflexivity. Qed.


(** ** Further properties of the validation window *)

(** Two times in the same period bucket have the same counter. *)
Theorem counter_same_bucket {platform : Platform}
    (t1 t2 : time.Time) (opts : ValidateOpts.t) :
  - 2 ^ 53 < time.Unix t1 < 2 ^ 53 ->
  - 2 ^ 53 < time.Unix t2 < 2 ^ 53 ->
  0 < ValidateOpts.Period opts < 2 ^ 64 ->
  time.Unix t1 / ValidateOpts.Period opts = time.Unix t2 / ValidateOpts.Period opts ->
  validateCounter t1 opts = validateCounter t2 opts
  /\ (0 <= time.Unix t1 -> 0 <= time.Unix t2 ->
      generateCounter t1 opts = generateCounter t2 opts).
Proof.
  intros H1 H2 Hp Hq. split.
  - rewrite !validateCounter_exact by assumption. exact Hq.
  - intros P1 P2. rewrite !generateCounter_exact by lia. exact Hq.
Qed.

Lemma counter_same_bucket_witness :
  @validateCounter amd64 {| time.Unix := 30 |} (resolveOpts [])
  = @validateCounter amd64 {| time.Unix := 59 |} (resolveOpts [])
  /\ (0 <= 30 -> 0 <= 59 ->
      @generateCounter amd64 {| time.Unix := 30 |} (resolveOpts [])
      = @generateCounter amd64 {| time.Unix := 59 |} (resolveOpts [])).
Proof.
  apply (@counter_same_bucket amd64 {| time.Unix := 30 |} {| time.Unix := 59 |}
           (resolveOpts [])).
  - cbn. lia.
  - cbn. lia.
  - cbn. lia.
  - reflexivity.
Defined.

Lemma claimedWindow_in (base : Z) (skew : nat) (x : Z) :
  In x (claimedWindow base skew) ->
  exists j, - Z.of_nat skew <= j <= Z.of_nat skew /\ x = uint64 (base + j).
Proof.
  unfold claimedWindow. intros [Hx | Hx].
  - exists 0. split; [lia|]. rewrite Z.add_0_r. symmetry. exact Hx.
  - apply in_flat_map in Hx. destruct Hx as (i & Hi & Hx).
    apply in_map_iff in Hi. destruct Hi as (n & <- & Hn).
    apply in_seq in Hn.
    destruct Hx as [Hx | [Hx | []]].
    + exists (Z.of_nat n). split; [lia | symmetry; exact Hx].
    + exists (- Z.of_nat n). split; [lia|]. rewrite <- Hx. reflexivity.
Qed.

Lemma claimedWindow_last (base : Z) (skew : nat) :
  In (uint64 (base + Z.of_nat skew)) (claimedWindow base skew).
Proof.
  destruct skew as [|n].
  - left. f_equal. cbn. lia.
  - destruct (claimedWindow_nth base (S n) (S n) ltac:(lia)) as [Hn _].
    eapply nth_error_In. exact Hn.
Qed.

Section SkewBoundary.

Context {platform : Platform} {hotp_pkg : hotp.Package}.

Variables (passcode secret : string) (hopts : hotp.ValidateOpts) (valid : Z).

(** The primitive accepts the passcode at counter [valid] and at no other,
    and reports no error. *)
Hypothesis valid_only_at :
  forall c, hotp.ValidateCustom passcode c secret hopts = (c =? valid, None).

Lemma validateLoop_valid_only_at (counters : list Z) :
  forall calls,
    fst (validateLoop passcode secret hopts counters calls)
    = (existsb (fun c => c =? valid) counters, None).
Proof.
  induction counters as [|c rest IH]; intros calls; cbn [validateLoop existsb].
  - reflexivity.
  - rewrite valid_only_at. destruct (c =? valid); cbn [orb]; [reflexivity | apply IH].
Qed.

End SkewBoundary.

(** With skew [s], a passcode valid exactly at counter [base + s] is
    accepted at a time whose counter is [base]; a passcode valid exactly at
    [base + s + 1] is rejected, without error. *)
Theorem skew_window_boundary
    {platform : Platform} {hotp_pkg : hotp.Package}
    (passcode secret : string) (t : time.Time) (validateOpts : list ValidateOpt)
    (valid : Z) :
  let opts := resolveOpts validateOpts in
  let base := time.Unix t / ValidateOpts.Period opts in
  let skew := ValidateOpts.Skew opts in
  let hopts := {| hotp.Digits := ValidateOpts.Digits opts;
                  hotp.Algorithm := ValidateOpts.Algorithm opts |} in
  - 2 ^ 53 < time.Unix t < 2 ^ 53 ->
  0 < ValidateOpts.Period opts < 2 ^ 64 ->
  0 <= skew < 2 ^ 62 ->
  (forall c, hotp.ValidateCustom passcode c secret hopts = (c =? valid, None)) ->
  (valid = uint64 (base + skew) ->
   option_map fst (ValidateCustom passcode secret t validateOpts) = Some (true, None))
  /\ (valid = uint64 (base + skew + 1) ->
      option_map fst (ValidateCustom passcode secret t validateOpts)
      = Some (false, None)).
Proof.
  intros opts base skew hopts Ht Hp Hs Hvalid.
  assert (int skew = skew) as Hint by (apply int64_small; lia).
  assert (windowCounters (validateCounter t opts) skew
          = Some (claimedWindow base (Z.to_nat skew))) as Hw.
  { rewrite windowCounters_spec by (unfold MaxInt; lia).
    rewrite Hint, validateCounter_exact by assumption. reflexivity. }
  assert (option_map fst (ValidateCustom passcode secret t validateOpts)
          = Some (existsb (fun c => c =? valid) (claimedWindow base (Z.to_nat skew)),
                  None)) as Hres.
  { unfold ValidateCustom. fold opts skew hopts. rewrite Hw. cbn [option_map].
    rewrite (validateLoop_valid_only_at passcode secret hopts valid Hvalid).
    reflexivity. }
  rewrite Hres. split; intros ->; do 2 f_equal.
  - apply existsb_exists. exists (uint64 (base + skew)). split; [|apply Z.eqb_refl].
    pose proof (claimedWindow_last base (Z.to_nat skew)) as Hin.
    rewrite Z2Nat.id in Hin by lia. exact Hin.
  - destruct (existsb (fun c => c =? uint64 (base + skew + 1))
                      (claimedWindow base (Z.to_nat skew))) eqn:Hex; [|reflexivity].
    exfalso. apply existsb_exists in Hex. destruct Hex as (x & Hin & Hx).
    apply Z.eqb_eq in Hx. apply claimedWindow_in in Hin.
    destruct Hin as (j & Hj & ->). rewrite Z2Nat.id in Hj by lia.
    unfold uint64 in Hx.
    assert ((base + skew + 1 - (base + j)) mod 2 ^ 64 = 0) as Hmod.
    { rewrite Zminus_mod, Hx, Z.sub_diag. reflexivity. }
    rewrite Z.mod_small in Hmod by lia. lia.
Qed.

Lemma skew_window_boundary_witness :
  option_map fst
    (@ValidateCustom amd64
       {| hotp.GenerateCodeCustom := fun _ _ _ => (EmptyString, None);
          hotp.ValidateCustom := fun _ c _ _ => (c =? 3, None) |}
       "123456" "secret" {| time.Unix := 59 |} [WithSkew 2]) = Some (true, None).
Proof.
  apply (proj1 (@skew_window_boundary amd64
                  {| hotp.GenerateCodeCustom := fun _ _ _ => (EmptyString, None);
                     hotp.ValidateCustom := fun _ c _ _ => (c =? 3, None) |}
                  "123456" "secret" {| time.Unix := 59 |} [WithSkew 2] 3
                  ltac:(cbn; lia) ltac:(cbn; lia) ltac:(cbn; lia)
                  (fun c => eq_refl))).
  reflexivity.
Defined.

(** [Validate] reports only the boolean: an error of the primitive becomes
    [false]. *)
Theorem Validate_swallows_error
    {platform : Platform} {hotp_pkg : hotp.Package}
    (now : time.Time) (passcode secret : string) (validateOpts : list ValidateOpt)
    (pre post : list Z) (c : Z) (rv : bool) (e : error) :
  let opts := resolveOpts validateOpts in
  let hopts := {| hotp.Digits := ValidateOpts.Digits opts;
                  hotp.Algorithm := ValidateOpts.Algorithm opts |} in
  windowCounters (validateCounter now opts) (ValidateOpts.Skew opts)
    = Some (pre ++ c :: post) ->
  (forall c', In c' pre ->
              hotp.ValidateCustom passcode c' secret hopts = (false, None)) ->
  hotp.ValidateCustom passcode c secret hopts = (rv, Some e) ->
  ValidateCustom passcode secret now validateOpts = Some ((false, Some e), pre ++ [c])
  /\ Validate now passcode secret validateOpts = Some false.
Proof.
  intros opts hopts Hw Hpre Hc.
  assert (ValidateCustom passcode secret now validateOpts
          = Some ((false, Some e), pre ++ [c])) as Hv.
  { unfold ValidateCustom. fold opts hopts. rewrite Hw.
    rewrite (validateLoop_error passcode secret hopts pre [] c post rv e Hpre Hc).
    reflexivity. }
  split; [exact Hv|]. unfold Validate. rewrite Hv. reflexivity.
Qed.

Lemma Validate_swallows_error_witness :
  @ValidateCustom amd64 rfc4226.package "996554" "not base32!"
    {| time.Unix := 59 |} [WithSkew 1]
  = Some ((false, Some (otp.ErrExternal "secret is not base32")), [] ++ [1])
  /\ @Validate amd64 rfc4226.package {| time.Unix := 59 |} "996554" "not base32!"
       [WithSkew 1] = Some false.
Proof.
  apply (@Validate_swallows_error amd64 rfc4226.package {| time.Unix := 59 |}
           "996554" "not base32!" [WithSkew 1] [] [2; 0] 1 false
           (otp.ErrExternal "secret is not base32")).
  - vm_compute. reflexivity.
  - intros c' [].
  - vm_compute. reflexivity.
Defined.

(** An error of the random source is returned by [Generate] as it is. *)
Lemma Generate_random_source_error_witness :
  @Generate otp_reference rand_reference
    (exampleOpts "Example" "alice@example.com" []
       (Some (failingReader (otp.ErrExternal "entropy source closed"))))
  = ((None, Some (otp.ErrExternal "entropy source closed")), [20%nat]).
Proof.
  apply (@Generate_random_source_error otp_reference rand_reference
           (exampleOpts "Example" "alice@example.com" []
              (Some (failingReader (otp.ErrExternal "entropy source closed"))))).
  - discriminate.
  - discriminate.
  - reflexivity.
  - reflexivity.
Defined.

(** * Further properties of the package *)

(** ** Options *)

Lemma defaultOpts_fields (opts : ValidateOpts.t) :
  defaultOpts opts
  = {| ValidateOpts.Period :=
         if ValidateOpts.Period opts =? 0 then 30 else ValidateOpts.Period opts;
       ValidateOpts.Skew :=
         if ValidateOpts.Skew opts =? 0 then 30 else ValidateOpts.Skew opts;
       ValidateOpts.Digits :=
         if ValidateOpts.Digits opts =? 0 then otp.DigitsSix
         else ValidateOpts.Digits opts;
       ValidateOpts.Algorithm := ValidateOpts.Algorithm opts |}.
Proof.
  destruct opts as [p s d a]. unfold defaultOpts.
  cbn [ValidateOpts.Skew ValidateOpts.Digits ValidateOpts.Period
       ValidateOpts.Algorithm].
  destruct (s =? 0);
    cbn [ValidateOpts.Skew ValidateOpts.Digits ValidateOpts.Period
         ValidateOpts.Algorithm];
    destruct (d =? 0);
    cbn [ValidateOpts.Skew ValidateOpts.Digits ValidateOpts.Period
         ValidateOpts.Algorithm];
    destruct (p =? 0); reflexivity.
Qed.

Lemma default_if_zero_nonzero (x d : Z) : d <> 0 -> (if x =? 0 then d else x) <> 0.
Proof. intros Hd. destruct (Z.eqb_spec x 0); assumption. Qed.

Lemma default_if_zero_idem (x d : Z) :
  d <> 0 ->
  (if (if x =? 0 then d else x) =? 0 then d else (if x =? 0 then d else x))
  = (if x =? 0 then d else x).
Proof.
  intros Hd. pose proof (default_if_zero_nonzero x d Hd) as Hn.
  destruct (Z.eqb_spec (if x =? 0 then d else x) 0); [contradiction | reflexivity].
Qed.

(** Whatever the options, the resolved period, skew and digit count are
    never zero (the division by the period is never by zero, and a skew of
    zero cannot be had), and filling the defaults again changes nothing. *)
Theorem resolved_options_never_zero (validateOpts : list ValidateOpt) :
  let opts := resolveOpts validateOpts in
  ValidateOpts.Period opts <> 0
  /\ ValidateOpts.Skew opts <> 0
  /\ ValidateOpts.Digits opts <> 0
  /\ defaultOpts opts = opts.
Proof.
  intros opts. unfold opts, resolveOpts.
  set (given := fold_left (fun opts opt => opt opts) validateOpts ValidateOpts.zero).
  rewrite (defaultOpts_fields given).
  cbn [ValidateOpts.Skew ValidateOpts.Digits ValidateOpts.Period
       ValidateOpts.Algorithm].
  split; [apply default_if_zero_nonzero; discriminate|].
  split; [apply default_if_zero_nonzero; discriminate|].
  split; [apply default_if_zero_nonzero; discriminate|].
  rewrite defaultOpts_fields.
  cbn [ValidateOpts.Skew ValidateOpts.Digits ValidateOpts.Period
       ValidateOpts.Algorithm].
  rewrite !default_if_zero_idem by discriminate. reflexivity.
Qed.

Lemma resolveOpts_app (l : list ValidateOpt) (opt : ValidateOpt) :
  resolveOpts (l ++ [opt])
  = defaultOpts (opt (fold_left (fun opts opt => opt opts) l ValidateOpts.zero)).
Proof. unfold resolveOpts. rewrite fold_left_app. reflexivity. Qed.

(** An option function given last decides its field, a zero value standing
    for the default, and leaves the other three resolved fields as the
    options before it made them. *)
Theorem last_option_decides_its_field (l : list ValidateOpt) (x : Z) :
  (let opts := resolveOpts (l ++ [WithPeriod x]) in
   ValidateOpts.Period opts = (if x =? 0 then 30 else x)
   /\ ValidateOpts.Skew opts = ValidateOpts.Skew (resolveOpts l)
   /\ ValidateOpts.Digits opts = ValidateOpts.Digits (resolveOpts l)
   /\ ValidateOpts.Algorithm opts = ValidateOpts.Algorithm (resolveOpts l))
  /\ (let opts := resolveOpts (l ++ [WithSkew x]) in
      ValidateOpts.Skew opts = (if x =? 0 then 30 else x)
      /\ ValidateOpts.Period opts = ValidateOpts.Period (resolveOpts l)
      /\ ValidateOpts.Digits opts = ValidateOpts.Digits (resolveOpts l)
      /\ ValidateOpts.Algorithm opts = ValidateOpts.Algorithm (resolveOpts l))
  /\ (let opts := resolveOpts (l ++ [WithDigits x]) in
      ValidateOpts.Digits opts = (if x =? 0 then otp.DigitsSix else x)
      /\ ValidateOpts.Period opts = ValidateOpts.Period (resolveOpts l)
      /\ ValidateOpts.Skew opts = ValidateOpts.Skew (resolveOpts l)
      /\ ValidateOpts.Algorithm opts = ValidateOpts.Algorithm (resolveOpts l))
  /\ (let opts := resolveOpts (l ++ [WithAlgorithm x]) in
      ValidateOpts.Algorithm opts = x
      /\ ValidateOpts.Period opts = ValidateOpts.Period (resolveOpts l)
      /\ ValidateOpts.Skew opts = ValidateOpts.Skew (resolveOpts l)
      /\ ValidateOpts.Digits opts = ValidateOpts.Digits (resolveOpts l)).
Proof.
  cbv zeta. rewrite !resolveOpts_app. unfold resolveOpts.
  set (given := fold_left (fun opts opt => opt opts) l ValidateOpts.zero).
  rewrite !defaultOpts_fields.
  unfold WithPeriod, WithSkew, WithDigits, WithAlgorithm.
  cbn [ValidateOpts.Skew ValidateOpts.Digits ValidateOpts.Period
       ValidateOpts.Algorithm].
  repeat split; reflexivity.
Qed.

(** ** Code generation *)

Section Generation.

Context {platform : Platform} {hotp_pkg : hotp.Package}.

(** [GenerateCodeCustom] reads the period, the digits and the algorithm of
    the resolved options, nothing else. *)
Lemma GenerateCodeCustom_fields (secret : string) (t : time.Time)
    (l1 l2 : list ValidateOpt) :
  ValidateOpts.Period (resolveOpts l1) = ValidateOpts.Period (resolveOpts l2) ->
  ValidateOpts.Digits (resolveOpts l1) = ValidateOpts.Digits (resolveOpts l2) ->
  ValidateOpts.Algorithm (resolveOpts l1) = ValidateOpts.Algorithm (resolveOpts l2) ->
  GenerateCodeCustom secret t l1 = GenerateCodeCustom secret t l2.
Proof.
  intros Hp Hd Ha. unfold GenerateCodeCustom, generateCounter, periodQuotient.
  rewrite Hp, Hd, Ha. reflexivity.
Qed.

(** The skew plays no part in generation: [WithSkew] given last changes
    nothing, and [GenerateCode], which differs from the defaults by its
    [WithSkew(1)] alone, is [GenerateCodeCustom] without options. *)
Theorem generation_ignores_skew (secret : string) (t : time.Time)
    (l : list ValidateOpt) (skew : Z) :
  GenerateCodeCustom secret t (l ++ [WithSkew skew]) = GenerateCodeCustom secret t l
  /\ GenerateCode secret t = GenerateCodeCustom secret t [].
Proof.
  split.
  - apply GenerateCodeCustom_fields; rewrite resolveOpts_app; unfold resolveOpts;
      rewrite !defaultOpts_fields; reflexivity.
  - unfold GenerateCode. apply GenerateCodeCustom_fields; reflexivity.
Qed.

(** From the epoch to [2^53] seconds, the passcode of [GenerateCodeCustom]
    is the one [hotp.GenerateCodeCustom] gives for the counter
    [floor(Unix(t) / Period)] with the resolved digits and algorithm; an
    error of the primitive is returned as it is, with an empty passcode. *)
Theorem generated_code_is_hotp_of_floor_counter (secret : string) (t : time.Time)
    (validateOpts : list ValidateOpt) :
  let opts := resolveOpts validateOpts in
  let primitive :=
    hotp.GenerateCodeCustom secret (time.Unix t / ValidateOpts.Period opts)
      {| hotp.Digits := ValidateOpts.Digits opts;
         hotp.Algorithm := ValidateOpts.Algorithm opts |} in
  0 <= time.Unix t < 2 ^ 53 ->
  0 < ValidateOpts.Period opts < 2 ^ 64 ->
  GenerateCodeCustom secret t validateOpts
  = match snd primitive with
    | Some e => (EmptyString, Some e)
    | None => (fst primitive, None)
    end.
Proof.
  intros opts primitive Ht Hp. unfold GenerateCodeCustom. fold opts.
  rewrite generateCounter_exact by assumption. fold primitive.
  destruct primitive as [code [e|]]; reflexivity.
Qed.

End Generation.

Lemma generated_code_is_hotp_of_floor_counter_witness :
  @GenerateCodeCustom amd64 rfc4226.package "JBSWY3DPEHPK3PXP"
    {| time.Unix := 59 |} [WithDigits 8]
  = match snd (rfc4226.GenerateCodeCustom "JBSWY3DPEHPK3PXP" (59 / 30)
                 {| hotp.Digits := 8; hotp.Algorithm := 0 |}) with
    | Some e => (EmptyString, Some e)
    | None => (fst (rfc4226.GenerateCodeCustom "JBSWY3DPEHPK3PXP" (59 / 30)
                      {| hotp.Digits := 8; hotp.Algorithm := 0 |}), None)
    end.
Proof.
  apply (@generated_code_is_hotp_of_floor_counter amd64 rfc4226.package
           "JBSWY3DPEHPK3PXP" {| time.Unix := 59 |} [WithDigits 8]).
  - cbn. lia.
  - cbn. lia.
Defined.

(** ** Validation: what a result tells *)

Section Outcome.

Context {platform : Platform} {hotp_pkg : hotp.Package}.

Variables (passcode secret : string) (hopts : hotp.ValidateOpts).

(** The loop stops on the first call that matches or fails; every call
    before it returned [(false, nil)]. *)
Lemma validateLoop_outcome (counters : list Z) :
  forall calls0 rv err calls,
    validateLoop passcode secret hopts counters calls0 = ((rv, err), calls) ->
    exists done rest,
      counters = done ++ rest /\ calls = calls0 ++ done
      /\ ((rv = false /\ err = None /\ rest = []
           /\ forall c, In c done ->
                        hotp.ValidateCustom passcode c secret hopts = (false, None))
          \/ exists pre c,
               done = pre ++ [c]
               /\ (forall c', In c' pre ->
                      hotp.ValidateCustom passcode c' secret hopts = (false, None))
               /\ ((rv = true /\ err = None
                    /\ hotp.ValidateCustom passcode c secret hopts = (true, None))
                   \/ (rv = false
                       /\ exists rv' e,
                            err = Some e
                            /\ hotp.ValidateCustom passcode c secret hopts
                               = (rv', Some e)))).
Proof.
  induction counters as [|c rest IH]; intros calls0 rv err calls Hrun;
    cbn [validateLoop] in Hrun.
  - injection Hrun as <- <- <-. exists [], [].
    split; [reflexivity|]. split; [symmetry; apply app_nil_r|].
    left. repeat split. intros c [].
  - destruct (hotp.ValidateCustom passcode c secret hopts) as [rv0 [e|]] eqn:Hc.
    + injection Hrun as <- <- <-. exists [c], rest.
      split; [reflexivity|]. split; [reflexivity|].
      right. exists [], c. split; [reflexivity|]. split; [intros c' []|].
      right. split; [reflexivity|]. exists rv0, e. split; [reflexivity | exact Hc].
    + destruct rv0.
      * injection Hrun as <- <- <-. exists [c], rest.
        split; [reflexivity|]. split; [reflexivity|].
        right. exists [], c. split; [reflexivity|]. split; [intros c' []|].
        left. repeat split. exact Hc.
      * destruct (IH _ _ _ _ Hrun) as (done & rest' & Hsplit & Hcalls & Hcase).
        exists (c :: done), rest'.
        split; [rewrite Hsplit; reflexivity|].
        split; [rewrite Hcalls, <- app_assoc; reflexivity|].
        destruct Hcase as [(Hrv & Herr & Hrest & Hall) | (pre & c1 & Hd & Hpre & Hlast)].
        -- left. repeat split; try assumption.
           intros c' [<- | Hin]; [exact Hc | apply Hall; exact Hin].
        -- right. exists (c :: pre), c1. split; [rewrite Hd; reflexivity|].
           split; [|exact Hlast].
           intros c' [<- | Hin]; [exact Hc | apply Hpre; exact Hin].
Qed.

(** When no call of the window fails, the result is whether some
    candidate matches. *)
Lemma validateLoop_without_error (counters : list Z) :
  forall calls,
    (forall c, In c counters ->
               snd (hotp.ValidateCustom passcode c secret hopts) = None) ->
    fst (validateLoop passcode secret hopts counters calls)
    = (existsb (fun c => fst (hotp.ValidateCustom passcode c secret hopts)) counters,
       None).
Proof.
  induction counters as [|c rest IH]; intros calls Hall; cbn [validateLoop existsb].
  - reflexivity.
  - pose proof (Hall c (or_introl eq_refl)) as Hc.
    destruct (hotp.ValidateCustom passcode c secret hopts) as [rv err].
    cbn [snd fst] in *. subst err.
    destruct rv; cbn [orb]; [reflexivity|].
    apply IH. intros c' Hc'. apply Hall. right. exact Hc'.
Qed.

End Outcome.

(** Soundness of a positive answer: [ValidateCustom] returns [true] only
    with a [nil] error and only when its last call to the primitive, on a
    counter of the window, returned [(true, nil)]; all calls before that one
    returned [(false, nil)]. *)
Theorem true_means_a_window_counter_matched
    {platform : Platform} {hotp_pkg : hotp.Package}
    (passcode secret : string) (t : time.Time) (validateOpts : list ValidateOpt)
    (err : option error) (calls : list Z) :
  let opts := resolveOpts validateOpts in
  let hopts := {| hotp.Digits := ValidateOpts.Digits opts;
                  hotp.Algorithm := ValidateOpts.Algorithm opts |} in
  let window := claimedWindow (validateCounter t opts)
                              (Z.to_nat (int (ValidateOpts.Skew opts))) in
  ValidateCustom passcode secret t validateOpts = Some ((true, err), calls) ->
  err = None
  /\ exists pre c,
       calls = pre ++ [c]
       /\ In c window
       /\ hotp.ValidateCustom passcode c secret hopts = (true, None)
       /\ forall c', In c' pre ->
                     hotp.ValidateCustom passcode c' secret hopts = (false, None).
Proof.
  intros opts hopts window Hrun. unfold ValidateCustom in Hrun.
  fold opts hopts in Hrun.
  destruct (Z_lt_le_dec (int (ValidateOpts.Skew opts)) (2 ^ 62)) as [Hskew | Hmax];
    [|rewrite windowCounters_none in Hrun by exact Hmax; discriminate Hrun].
  - rewrite windowCounters_spec in Hrun by exact Hskew. fold window in Hrun.
    injection Hrun as Hrun.
    destruct (validateLoop_outcome passcode secret hopts window [] true err calls Hrun)
      as (done & rest & Hsplit & Hcalls & Hcase).
    cbn [app] in Hcalls. subst calls.
    destruct Hcase as [(Hrv & _) | (pre & c & Hd & Hpre & Hlast)]; [discriminate Hrv|].
    destruct Hlast as [(_ & Herr & Hc) | (Hrv & _)]; [|discriminate Hrv].
    split; [exact Herr|]. exists pre, c. split; [exact Hd|].
    split; [|split; assumption].
    rewrite Hsplit, Hd. apply in_or_app. left. apply in_or_app. right. left. reflexivity.
Qed.

Lemma true_means_a_window_counter_matched_witness :
  @None error = None
  /\ exists pre c,
       [3; 4; 2; 5; 1] = pre ++ [c]
       /\ In c (claimedWindow
                  (@validateCounter amd64 {| time.Unix := 90 |} (resolveOpts [WithSkew 2]))
                  (Z.to_nat (int (ValidateOpts.Skew (resolveOpts [WithSkew 2])))))
       /\ rfc4226.ValidateCustom "996554" c "JBSWY3DPEHPK3PXP"
            {| hotp.Digits := 6; hotp.Algorithm := 0 |} = (true, None)
       /\ forall c', In c' pre ->
                     rfc4226.ValidateCustom "996554" c' "JBSWY3DPEHPK3PXP"
                       {| hotp.Digits := 6; hotp.Algorithm := 0 |} = (false, None).
Proof.
  apply (@true_means_a_window_counter_matched amd64 rfc4226.package
           "996554" "JBSWY3DPEHPK3PXP" {| time.Unix := 90 |} [WithSkew 2]
           None [3; 4; 2; 5; 1]).
  vm_compute. reflexivity.
Defined.

(** The calls of one validation with a skew below [2^62]: at least one,
    the first on the base counter, at most [2 * Skew + 1], and all on
    counters of the window in its order. *)
Theorem validation_call_budget
    {platform : Platform} {hotp_pkg : hotp.Package}
    (passcode secret : string) (t : time.Time) (validateOpts : list ValidateOpt) :
  let opts := resolveOpts validateOpts in
  let skew := ValidateOpts.Skew opts in
  0 <= skew < 2 ^ 62 ->
  exists res more rest,
    ValidateCustom passcode secret t validateOpts
    = Some (res, uint64 (validateCounter t opts) :: more)
    /\ claimedWindow (validateCounter t opts) (Z.to_nat skew)
       = (uint64 (validateCounter t opts) :: more) ++ rest
    /\ 1 <= Z.of_nat (List.length (uint64 (validateCounter t opts) :: more))
       <= 2 * skew + 1.
Proof.
  intros opts skew Hs.
  assert (int skew = skew) as Hint by (apply int64_small; lia).
  unfold ValidateCustom. fold opts skew.
  rewrite windowCounters_spec by (rewrite Hint; lia). rewrite Hint.
  set (hopts := {| hotp.Digits := ValidateOpts.Digits opts;
                   hotp.Algorithm := ValidateOpts.Algorithm opts |}).
  set (window := claimedWindow (validateCounter t opts) (Z.to_nat skew)).
  destruct (validateLoop passcode secret hopts window []) as [[rv err] calls] eqn:Hrun.
  destruct (validateLoop_outcome passcode secret hopts window [] rv err calls Hrun)
    as (done & rest & Hsplit & Hcalls & Hcase).
  cbn [app] in Hcalls. subst calls.
  pose proof (claimedWindow_length (validateCounter t opts) (Z.to_nat skew)) as Hlen.
  fold window in Hlen. rewrite Hsplit, length_app in Hlen.
  destruct done as [|c more].
  - exfalso. destruct Hcase as [(_ & _ & Hrest & _) | (pre & c & Hd & _)].
    + subst rest. cbn in Hlen. lia.
    + destruct pre; discriminate Hd.
  - assert (c = uint64 (validateCounter t opts)) as ->.
    { unfold window, claimedWindow in Hsplit. injection Hsplit as Hc _.
      symmetry. exact Hc. }
    exists (rv, err), more, rest. split; [reflexivity|]. split; [exact Hsplit|].
    cbn [List.length] in *. lia.
Qed.

Lemma validation_call_budget_witness :
  exists res more rest,
    @ValidateCustom amd64 rfc4226.package "996554" "JBSWY3DPEHPK3PXP"
      {| time.Unix := 90 |} [WithSkew 2]
    = Some (res, uint64 (@validateCounter amd64 {| time.Unix := 90 |}
                           (resolveOpts [WithSkew 2])) :: more)
    /\ claimedWindow (@validateCounter amd64 {| time.Unix := 90 |}
                        (resolveOpts [WithSkew 2])) (Z.to_nat 2)
       = (uint64 (@validateCounter amd64 {| time.Unix := 90 |}
                    (resolveOpts [WithSkew 2])) :: more) ++ rest
    /\ 1 <= Z.of_nat (List.length
                        (uint64 (@validateCounter amd64 {| time.Unix := 90 |}
                                   (resolveOpts [WithSkew 2])) :: more))
       <= 2 * 2 + 1.
Proof.
  apply (@validation_call_budget amd64 rfc4226.package "996554" "JBSWY3DPEHPK3PXP"
           {| time.Unix := 90 |} [WithSkew 2]).
  cbn. lia.
Defined.

(** When [int(Skew)] is below [2^62] (the window can be built) and the
    primitive fails on no counter of the window, [ValidateCustom] returns
    without error, and [true] exactly when the primitive accepts the
    passcode on some counter of the window. *)
Theorem no_error_result_is_some_match
    {platform : Platform} {hotp_pkg : hotp.Package}
    (passcode secret : string) (t : time.Time) (validateOpts : list ValidateOpt) :
  let opts := resolveOpts validateOpts in
  let hopts := {| hotp.Digits := ValidateOpts.Digits opts;
                  hotp.Algorithm := ValidateOpts.Algorithm opts |} in
  let window := claimedWindow (validateCounter t opts)
                              (Z.to_nat (int (ValidateOpts.Skew opts))) in
  int (ValidateOpts.Skew opts) < 2 ^ 62 ->
  (forall c, In c window ->
             snd (hotp.ValidateCustom passcode c secret hopts) = None) ->
  option_map fst (ValidateCustom passcode secret t validateOpts)
  = Some (existsb (fun c => fst (hotp.ValidateCustom passcode c secret hopts)) window,
          None).
Proof.
  intros opts hopts window Hskew Hall. unfold ValidateCustom. fold opts hopts.
  rewrite windowCounters_spec by exact Hskew. fold window. cbn [option_map].
  rewrite (validateLoop_without_error passcode secret hopts window [] Hall).
  reflexivity.
Qed.

Lemma no_error_result_is_some_match_witness :
  option_map fst
    (@ValidateCustom amd64 rfc4226.package "996554" "JBSWY3DPEHPK3PXP"
       {| time.Unix := 90 |} [WithSkew 1])
  = Some (existsb
            (fun c => fst (rfc4226.ValidateCustom "996554" c "JBSWY3DPEHPK3PXP"
                             {| hotp.Digits := 6; hotp.Algorithm := 0 |}))
            (claimedWindow
               (@validateCounter amd64 {| time.Unix := 90 |} (resolveOpts [WithSkew 1]))
               (Z.to_nat (int (ValidateOpts.Skew (resolveOpts [WithSkew 1]))))),
          None).
Proof.
  apply (@no_error_result_is_some_match amd64 rfc4226.package "996554"
           "JBSWY3DPEHPK3PXP" {| time.Unix := 90 |} [WithSkew 1]).
  - vm_compute. reflexivity.
  - intros c Hc. vm_compute in Hc.
    destruct Hc as [<- | [<- | [<- | []]]]; vm_compute; reflexivity.
Defined.

Lemma claimedWindow_offset (base : Z) (skew : nat) (j : Z) :
  - Z.of_nat skew <= j <= Z.of_nat skew ->
  In (uint64 (base + j)) (claimedWindow base skew).
Proof.
  intros Hj. destruct (Z.eq_dec j 0) as [-> | Hj0].
  - left. rewrite Z.add_0_r. reflexivity.
  - destruct (claimedWindow_nth base skew (Z.to_nat (Z.abs j)) ltac:(lia))
      as [Hplus Hminus].
    rewrite Z2Nat.id in Hplus, Hminus by lia.
    destruct (Z.ltb_spec 0 j).
    + rewrite Z.abs_eq in Hplus by lia. eapply nth_error_In. exact Hplus.
    + rewrite Z.abs_neq in Hminus by lia.
      replace (base - - j) with (base + j) in Hminus by lia.
      eapply nth_error_In. exact Hminus.
Qed.

(** For a skew below [2^62], a passcode the primitive accepts at one
    counter only is accepted by [ValidateCustom] exactly when that counter
    is within [Skew] steps of [floor(Unix(t) / Period)], on either side
    (counters taken modulo [2^64]); otherwise the answer is
    [(false, nil)]. *)
Theorem accepted_iff_within_skew
    {platform : Platform} {hotp_pkg : hotp.Package}
    (passcode secret : string) (t : time.Time) (validateOpts : list ValidateOpt)
    (valid : Z) :
  let opts := resolveOpts validateOpts in
  let base := time.Unix t / ValidateOpts.Period opts in
  let skew := ValidateOpts.Skew opts in
  let hopts := {| hotp.Digits := ValidateOpts.Digits opts;
                  hotp.Algorithm := ValidateOpts.Algorithm opts |} in
  - 2 ^ 53 < time.Unix t < 2 ^ 53 ->
  0 < ValidateOpts.Period opts < 2 ^ 64 ->
  0 <= skew < 2 ^ 62 ->
  (forall c, hotp.ValidateCustom passcode c secret hopts = (c =? valid, None)) ->
  ((exists j, - skew <= j <= skew /\ valid = uint64 (base + j)) ->
   option_map fst (ValidateCustom passcode secret t validateOpts) = Some (true, None))
  /\ (~ (exists j, - skew <= j <= skew /\ valid = uint64 (base + j)) ->
      option_map fst (ValidateCustom passcode secret t validateOpts)
      = Some (false, None)).
Proof.
  intros opts base skew hopts Ht Hp Hs Hvalid.
  assert (int skew = skew) as Hint by (apply int64_small; lia).
  assert (option_map fst (ValidateCustom passcode secret t validateOpts)
          = Some (existsb (fun c => c =? valid) (claimedWindow base (Z.to_nat skew)),
                  None)) as Hres.
  { unfold ValidateCustom. fold opts skew hopts.
    rewrite windowCounters_spec by (rewrite Hint; lia).
    rewrite Hint, validateCounter_exact by assumption. fold base. cbn [option_map].
    rewrite (validateLoop_valid_only_at passcode secret hopts valid Hvalid).
    reflexivity. }
  rewrite Hres. split.
  - intros (j & Hj & ->). do 2 f_equal. apply existsb_exists.
    exists (uint64 (base + j)). split; [|apply Z.eqb_refl].
    apply claimedWindow_offset. lia.
  - intros Hnone. do 2 f_equal.
    destruct (existsb (fun c => c =? valid) (claimedWindow base (Z.to_nat skew)))
      eqn:Hex; [|reflexivity].
    exfalso. apply Hnone. apply existsb_exists in Hex. destruct Hex as (x & Hin & Hx).
    apply Z.eqb_eq in Hx. subst x. apply claimedWindow_in in Hin.
    destruct Hin as (j & Hj & Hv). exists j. split; [lia | exact Hv].
Qed.

Lemma accepted_iff_within_skew_witness :
  option_map fst
    (@ValidateCustom amd64
       {| hotp.GenerateCodeCustom := fun _ _ _ => (EmptyString, None);
          hotp.ValidateCustom := fun _ c _ _ => (c =? 2 ^ 64 - 1, None) |}
       "123456" "secret" {| time.Unix := 59 |} [WithSkew 2]) = Some (true, None).
Proof.
  apply (proj1 (@accepted_iff_within_skew amd64
                  {| hotp.GenerateCodeCustom := fun _ _ _ => (EmptyString, None);
                     hotp.ValidateCustom := fun _ c _ _ => (c =? 2 ^ 64 - 1, None) |}
                  "123456" "secret" {| time.Unix := 59 |} [WithSkew 2] (2 ^ 64 - 1)
                  ltac:(cbn; lia) ltac:(cbn; lia) ltac:(cbn; lia)
                  (fun c => eq_refl))).
  exists (- 2). split; [cbn; lia | reflexivity].
Defined.

(** A skew of [2^63] or more is a negative [int]: the loop that widens the
    window never runs, and the base counter alone is tried. *)
Theorem huge_skew_tries_base_only
    {platform : Platform} {hotp_pkg : hotp.Package}
    (passcode secret : string) (t : time.Time) (validateOpts : list ValidateOpt) :
  let opts := resolveOpts validateOpts in
  let hopts := {| hotp.Digits := ValidateOpts.Digits opts;
                  hotp.Algorithm := ValidateOpts.Algorithm opts |} in
  let base := uint64 (validateCounter t opts) in
  2 ^ 63 <= ValidateOpts.Skew opts < 2 ^ 64 ->
  ValidateCustom passcode secret t validateOpts
  = Some (match snd (hotp.ValidateCustom passcode base secret hopts) with
          | Some e => (false, Some e)
          | None => (fst (hotp.ValidateCustom passcode base secret hopts), None)
          end, [base]).
Proof.
  intros opts hopts base Hs.
  assert (int (ValidateOpts.Skew opts) = ValidateOpts.Skew opts - 2 ^ 64) as Hint.
  { unfold int, int64.
    rewrite <- (Z.mod_unique_pos (ValidateOpts.Skew opts + 2 ^ 63) (2 ^ 64) 1
                  (ValidateOpts.Skew opts - 2 ^ 63)) by lia. lia. }
  unfold ValidateCustom. fold opts hopts.
  rewrite windowCounters_spec by (rewrite Hint; lia).
  replace (Z.to_nat (int (ValidateOpts.Skew opts))) with 0%nat by lia.
  unfold claimedWindow. cbn [seq map flat_map validateLoop app]. fold base.
  destruct (hotp.ValidateCustom passcode base secret hopts) as [rv [e|]];
    [reflexivity|]. destruct rv; reflexivity.
Qed.

Lemma huge_skew_tries_base_only_witness :
  @ValidateCustom amd64 rfc4226.package "287082" "JBSWY3DPEHPK3PXP"
    {| time.Unix := 59 |} [WithSkew (2 ^ 63)]
  = Some (match snd (rfc4226.ValidateCustom "287082" 1 "JBSWY3DPEHPK3PXP"
                       {| hotp.Digits := 6; hotp.Algorithm := 0 |}) with
          | Some e => (false, Some e)
          | None => (fst (rfc4226.ValidateCustom "287082" 1 "JBSWY3DPEHPK3PXP"
                            {| hotp.Digits := 6; hotp.Algorithm := 0 |}), None)
          end, [1]).
Proof.
  apply (@huge_skew_tries_base_only amd64 rfc4226.package "287082"
           "JBSWY3DPEHPK3PXP" {| time.Unix := 59 |} [WithSkew (2 ^ 63)]).
  cbn. lia.
Defined.

(** [Validate] answers [true] exactly when [ValidateCustom], at the same
    time, returns [(true, nil)]: an error never comes with [true]. *)
Theorem Validate_true_iff_match
    {platform : Platform} {hotp_pkg : hotp.Package}
    (now : time.Time) (passcode secret : string) (validateOpts : list ValidateOpt) :
  Validate now passcode secret validateOpts = Some true
  <-> exists calls,
        ValidateCustom passcode secret now validateOpts = Some ((true, None), calls).
Proof.
  unfold Validate. split.
  - destruct (ValidateCustom passcode secret now validateOpts)
      as [[[rv err] calls]|] eqn:Hrun; [|discriminate].
    intros Hrv. injection Hrv as ->.
    unfold ValidateCustom in Hrun.
    destruct (windowCounters _ _) as [window|]; [|discriminate Hrun].
    injection Hrun as Hrun.
    destruct (validateLoop_outcome _ _ _ _ _ _ _ _ Hrun)
      as (done & rest & _ & _ & Hcase).
    destruct Hcase as [(Hrv & _) | (pre & c & _ & _ & Hlast)]; [discriminate Hrv|].
    destruct Hlast as [(_ & -> & _) | (Hrv & _)]; [|discriminate Hrv].
    exists calls. reflexivity.
  - intros (calls & ->). reflexivity.
Qed.

(** ** Generation against validation *)

Section Drift.

Context {platform : Platform} {hotp_pkg : hotp.Package}.

Variables (secret passcode : string) (validateOpts : list ValidateOpt).

Let opts := resolveOpts validateOpts.
Let hopts := {| hotp.Digits := ValidateOpts.Digits opts;
                hotp.Algorithm := ValidateOpts.Algorithm opts |}.

(** The primitive accepts the codes it generates for [secret], and finds
    no fault with [secret] or the options at any counter. *)
Hypothesis primitive_round_trip :
  forall c code,
    hotp.GenerateCodeCustom secret c hopts = (code, None) ->
    fst (hotp.ValidateCustom code c secret hopts) = true.
Hypothesis primitive_no_error :
  forall c, snd (hotp.ValidateCustom passcode c secret hopts) = None.

Lemma accepted_after_drift (t now : time.Time) :
  - 2 ^ 53 < time.Unix t < 2 ^ 53 ->
  - 2 ^ 53 < time.Unix now < 2 ^ 53 ->
  0 < ValidateOpts.Period opts < 2 ^ 64 ->
  0 <= ValidateOpts.Skew opts < 2 ^ 62 ->
  generateCounter t opts = uint64 (time.Unix t / ValidateOpts.Period opts) ->
  Z.abs (time.Unix now / ValidateOpts.Period opts
         - time.Unix t / ValidateOpts.Period opts) <= ValidateOpts.Skew opts ->
  GenerateCodeCustom secret t validateOpts = (passcode, None) ->
  option_map fst (ValidateCustom passcode secret now validateOpts)
  = Some (true, None).
Proof.
  intros Ht Hnow Hp Hs Hcounter Hdrift Hgen.
  assert (int (ValidateOpts.Skew opts) = ValidateOpts.Skew opts) as Hint
      by (apply int64_small; lia).
  unfold GenerateCodeCustom in Hgen. fold opts hopts in Hgen.
  rewrite Hcounter in Hgen.
  destruct (hotp.GenerateCodeCustom secret
              (uint64 (time.Unix t / ValidateOpts.Period opts)) hopts)
    as [code [e|]] eqn:Hcode; [discriminate Hgen|].
  injection Hgen as ->. apply primitive_round_trip in Hcode.
  unfold ValidateCustom. fold opts hopts.
  rewrite windowCounters_spec by (rewrite Hint; lia).
  rewrite Hint, validateCounter_exact by assumption. cbn [option_map].
  rewrite validateLoop_without_error by (intros c _; apply primitive_no_error).
  do 2 f_equal. apply existsb_exists.
  exists (uint64 (time.Unix t / ValidateOpts.Period opts)).
  split; [|exact Hcode].
  replace (time.Unix t / ValidateOpts.Period opts)
    with (time.Unix now / ValidateOpts.Period opts
          + (time.Unix t / ValidateOpts.Period opts
             - time.Unix now / ValidateOpts.Period opts)) by lia.
  apply claimedWindow_offset. lia.
Qed.

(** From the epoch on and for a skew below [2^62], a code generated at
    [t] is accepted at every time [now] whose period is at most [Skew]
    periods away from that of [t], before or after, under the same
    options. *)
Theorem generated_code_accepted_within_skew (t now : time.Time) :
  0 <= time.Unix t < 2 ^ 53 ->
  - 2 ^ 53 < time.Unix now < 2 ^ 53 ->
  0 < ValidateOpts.Period opts < 2 ^ 64 ->
  0 <= ValidateOpts.Skew opts < 2 ^ 62 ->
  Z.abs (time.Unix now / ValidateOpts.Period opts
         - time.Unix t / ValidateOpts.Period opts) <= ValidateOpts.Skew opts ->
  GenerateCodeCustom secret t validateOpts = (passcode, None) ->
  option_map fst (ValidateCustom passcode secret now validateOpts)
  = Some (true, None).
Proof.
  intros Ht Hnow Hp Hs Hdrift Hgen.
  apply (accepted_after_drift t now); try assumption; [lia|].
  rewrite generateCounter_exact by assumption.
  pose proof (quotient_bound (time.Unix t) (ValidateOpts.Period opts)
                ltac:(lia) ltac:(lia)).
  assert (0 <= time.Unix t / ValidateOpts.Period opts) by (apply Z.div_pos; lia).
  symmetry. apply uint64_small. lia.
Qed.

(** Before the epoch the same holds, again for a skew below [2^62], on a
    platform whose conversion of a negative float64 to [uint64] wraps
    around like that of the integer (amd64 does): generation and
    validation then agree on the counter
    [2^64 + floor(Unix(t) / Period)]. *)
Theorem pre_epoch_round_trip_on_wrapping_platform (t now : time.Time) :
  (forall f z, float64_trunc f = Some z -> - 2 ^ 63 <= z < 0 ->
               uint64 (uint64_of_float64_unrepresentable f) = uint64 z) ->
  - 2 ^ 53 < time.Unix t < 0 ->
  - 2 ^ 53 < time.Unix now < 2 ^ 53 ->
  0 < ValidateOpts.Period opts < 2 ^ 64 ->
  0 <= ValidateOpts.Skew opts < 2 ^ 62 ->
  Z.abs (time.Unix now / ValidateOpts.Period opts
         - time.Unix t / ValidateOpts.Period opts) <= ValidateOpts.Skew opts ->
  GenerateCodeCustom secret t validateOpts = (passcode, None) ->
  option_map fst (ValidateCustom passcode secret now validateOpts)
  = Some (true, None).
Proof.
  intros Hwrap Ht Hnow Hp Hs Hdrift Hgen.
  apply (accepted_after_drift t now); try assumption; [lia|].
  rewrite generateCounter_pre_epoch by assumption.
  apply Hwrap; [apply periodQuotient_exact; lia|].
  pose proof (quotient_bound (time.Unix t) (ValidateOpts.Period opts)
                ltac:(lia) ltac:(lia)).
  assert (time.Unix t / ValidateOpts.Period opts < 0)
    by (apply Z.div_lt_upper_bound; lia).
  lia.
Qed.

End Drift.

(** The reference primitive reports an error for a bad secret, algorithm
    or passcode length only, whatever the counter. *)
Lemma rfc4226_no_error_at_any_counter (passcode secret : string)
    (o : hotp.ValidateOpts) (c c' : Z) :
  rfc4226.GenerateCodeCustom secret c' o = (passcode, None) ->
  snd (rfc4226.ValidateCustom passcode c secret o) = None.
Proof.
  unfold rfc4226.ValidateCustom, rfc4226.GenerateCodeCustom.
  destruct (rfc4226.decodeSecret secret); [|discriminate].
  destruct (hotp.Algorithm o =? otp.AlgorithmSHA1); [|discriminate].
  intros Hgen. injection Hgen as <-.
  rewrite rfc4226_format_length, Nat.eqb_refl. reflexivity.
Qed.

Lemma generated_code_accepted_within_skew_witness :
  option_map fst
    (@ValidateCustom amd64 rfc4226.package "996554" "JBSWY3DPEHPK3PXP"
       {| time.Unix := 119 |} [WithSkew 2])
  = Some (true, None).
Proof.
  apply (@generated_code_accepted_within_skew amd64 rfc4226.package
           "JBSWY3DPEHPK3PXP" "996554" [WithSkew 2]
           (fun c code H => f_equal fst (rfc4226_accepts_generated _ c _ code H))
           (fun c => rfc4226_no_error_at_any_counter "996554" "JBSWY3DPEHPK3PXP"
                       {| hotp.Digits := 6; hotp.Algorithm := 0 |} c 1 eq_refl)
           {| time.Unix := 59 |} {| time.Unix := 119 |}).
  - cbn. lia.
  - cbn. lia.
  - cbn. lia.
  - cbn. lia.
  - vm_compute. discriminate.
  - vm_compute. reflexivity.
Defined.

Lemma pre_epoch_round_trip_on_wrapping_platform_witness :
  option_map fst
    (@ValidateCustom amd64 rfc4226.package "954685" "JBSWY3DPEHPK3PXP"
       {| time.Unix := - 3000 |} [WithSkew 1])
  = Some (true, None).
Proof.
  apply (@pre_epoch_round_trip_on_wrapping_platform amd64 rfc4226.package
           "JBSWY3DPEHPK3PXP" "954685" [WithSkew 1]
           (fun c code H => f_equal fst (rfc4226_accepts_generated _ c _ code H))
           (fun c => rfc4226_no_error_at_any_counter "954685" "JBSWY3DPEHPK3PXP"
                       {| hotp.Digits := 6; hotp.Algorithm := 0 |} c (2 ^ 64 - 100)
                       eq_refl)
           {| time.Unix := - 3000 |} {| time.Unix := - 3000 |}).
  - intros f z Hf Hz. cbn [uint64_of_float64_unrepresentable amd64].
    unfold amd64_uint64. rewrite Hf.
    destruct (Z.leb_spec (- 2 ^ 63) z); destruct (Z.ltb_spec z 0);
      cbn [andb]; try reflexivity; lia.
  - cbn. lia.
  - cbn. lia.
  - cbn. lia.
  - cbn. lia.
  - vm_compute. discriminate.
  - vm_compute. reflexivity.
Defined.

(** ** No counter is tried twice *)

(** The offsets of the window, in the order of the candidates. *)
Lemma claimedWindow_offsets (base : Z) (skew : nat) :
  claimedWindow base skew
  = map (fun j => uint64 (base + j))
        (0 :: flat_map (fun i => [i; - i]) (map Z.of_nat (seq 1 skew))).
Proof.
  unfold claimedWindow. cbn [map]. rewrite Z.add_0_r. f_equal.
  induction (map Z.of_nat (seq 1 skew)) as [|i l IH]; cbn [flat_map map app].
  - reflexivity.
  - rewrite IH. reflexivity.
Qed.

Lemma offsets_NoDup (n : nat) :
  forall start : nat,
    (1 <= start)%nat ->
    NoDup (flat_map (fun i => [i; - i]) (map Z.of_nat (seq start n)))
    /\ forall j, In j (flat_map (fun i => [i; - i]) (map Z.of_nat (seq start n))) ->
                 Z.of_nat start <= Z.abs j < Z.of_nat (start + n).
Proof.
  induction n as [|n IH]; intros start Hstart; cbn [seq map flat_map app].
  - split; [constructor | intros j []].
  - destruct (IH (S start) ltac:(lia)) as [Hnodup Hrange]. split.
    + constructor; [|constructor; [|exact Hnodup]].
      * intros [Heq | Hin]; [lia | apply Hrange in Hin; lia].
      * intros Hin. apply Hrange in Hin. lia.
    + intros j [<- | [<- | Hin]]; [lia | lia | apply Hrange in Hin; lia].
Qed.

Lemma claimedWindow_NoDup (base : Z) (skew : nat) :
  2 * Z.of_nat skew < 2 ^ 64 -> NoDup (claimedWindow base skew).
Proof.
  intros Hskew. rewrite claimedWindow_offsets.
  destruct (offsets_NoDup skew 1 ltac:(lia)) as [Hnodup Hrange].
  apply NoDup_map_NoDup_ForallPairs.
  - assert (forall j, In j (0 :: flat_map (fun i => [i; - i])
                                           (map Z.of_nat (seq 1 skew))) ->
                      Z.abs j <= Z.of_nat skew) as Hbound.
    { intros j [<- | Hin]; [lia | apply Hrange in Hin; lia]. }
    intros a b Ha Hb Heq. apply Hbound in Ha, Hb. unfold uint64 in Heq.
    assert ((base + a - (base + b)) mod 2 ^ 64 = 0) as Hdiff.
    { rewrite Zminus_mod, Heq, Z.sub_diag. reflexivity. }
    replace (base + a - (base + b)) with (a - b) in Hdiff by lia.
    apply Z.mod_divide in Hdiff; [|lia]. destruct Hdiff as [k Hk]. nia.
  - constructor; [|exact Hnodup].
    intros Hin. apply Hrange in Hin. lia.
Qed.

(** With a skew below [2^62], [ValidateCustom] returns, and the
    counters it has passed to [hotp.ValidateCustom] are pairwise distinct:
    no counter is tried twice. *)
Theorem no_counter_is_tried_twice
    {platform : Platform} {hotp_pkg : hotp.Package}
    (passcode secret : string) (t : time.Time) (validateOpts : list ValidateOpt) :
  0 <= ValidateOpts.Skew (resolveOpts validateOpts) < 2 ^ 62 ->
  exists res calls,
    ValidateCustom passcode secret t validateOpts = Some (res, calls)
    /\ NoDup calls.
Proof.
  intros Hs. set (opts := resolveOpts validateOpts) in *.
  assert (int (ValidateOpts.Skew opts) = ValidateOpts.Skew opts) as Hint
      by (apply int64_small; lia).
  unfold ValidateCustom. fold opts.
  rewrite windowCounters_spec by (rewrite Hint; lia).
  rewrite Hint.
  match goal with
  | |- context [validateLoop _ _ ?h ?w []] =>
      destruct (validateLoop_log passcode secret h w [])
        as (res & done & rest & Hrun & Hsplit & _)
  end.
  exists res, done. split; [rewrite Hrun; reflexivity|].
  pose proof (claimedWindow_NoDup (validateCounter t opts)
                (Z.to_nat (ValidateOpts.Skew opts)) ltac:(lia)) as Hnodup.
  rewrite Hsplit in Hnodup. apply NoDup_app_remove_r in Hnodup. exact Hnodup.
Qed.

Lemma no_counter_is_tried_twice_witness :
  exists res calls,
    @ValidateCustom amd64 rfc4226.package "000000" "JBSWY3DPEHPK3PXP"
      {| time.Unix := 59 |} [WithSkew 2] = Some (res, calls)
    /\ NoDup calls.
Proof.
  apply (@no_counter_is_tried_twice amd64 rfc4226.package "000000"
           "JBSWY3DPEHPK3PXP" {| time.Unix := 59 |} [WithSkew 2]).
  cbn. lia.
Defined.

(** ** Key provisioning: the secret and the URI *)

Lemma skipn_repeat {A : Type} (x : A) (n k : nat) :
  skipn k (repeat x n) = repeat x (n - k).
Proof.
  revert k. induction n as [|n IH]; intros [|k]; cbn [repeat skipn Nat.sub];
    try reflexivity. apply IH.
Qed.

(** The buffer of [n] zero bytes after a read: the bytes stored, then the
    zeros that are left. *)
Lemma fill_zero_buffer (n : nat) (data : list Byte.byte) :
  io.fill (repeat Byte.x00 n) data
  = firstn n data ++ repeat Byte.x00 (n - List.length (firstn n data)).
Proof. unfold io.fill. rewrite repeat_length, skipn_repeat. reflexivity. Qed.

Lemma string_of_list_ascii_length (l : list ascii) :
  String.length (string_of_list_ascii l) = List.length l.
Proof.
  induction l as [|c l IH]; cbn [string_of_list_ascii String.length List.length];
    [reflexivity | rewrite IH; reflexivity].
Qed.

Lemma quintets_length (n : nat) :
  forall bits, List.length (base32.quintets n bits) = n.
Proof.
  induction n as [|n IH]; intros bits; cbn [base32.quintets List.length];
    [reflexivity | rewrite IH; reflexivity].
Qed.

Lemma bits_length (src : list Byte.byte) :
  List.length (flat_map base32.bitsOfByte src) = (8 * List.length src)%nat.
Proof.
  induction src as [|b src IH]; [reflexivity|].
  cbn [flat_map List.length]. rewrite length_app, IH.
  unfold base32.bitsOfByte. rewrite length_map. cbn [List.length]. lia.
Qed.

(** Unpadded base32 writes one character for every five bits, the last
    group filled up. *)
Lemma base32_length (src : list Byte.byte) :
  String.length (b32NoPadding_EncodeToString src)
  = ((8 * List.length src + 4) / 5)%nat.
Proof.
  unfold b32NoPadding_EncodeToString, base32.EncodeToString_NoPadding.
  rewrite string_of_list_ascii_length, length_map, quintets_length, bits_length.
  reflexivity.
Qed.

(** *** Characters that are written as they are *)

Lemma escape_unreserved (s : string) (mode : url.encoding) :
  forallb (fun c => negb (url.shouldEscape c mode)) (list_ascii_of_string s) = true ->
  url.escape s mode = s.
Proof.
  induction s as [|c s IH]; cbn [list_ascii_of_string forallb url.escape];
    [reflexivity|].
  intros H. apply andb_true_iff in H. destruct H as [Hc Hs].
  apply negb_true_iff in Hc. rewrite Hc, (IH Hs). reflexivity.
Qed.

Lemma escape_app (a b : string) (mode : url.encoding) :
  url.escape (a ++ b) mode = (url.escape a mode ++ url.escape b mode)%string.
Proof.
  induction a as [|c a IH]; cbn [append url.escape]; [reflexivity|].
  rewrite IH.
  destruct (url.shouldEscape c mode); [|reflexivity].
  destruct mode; try reflexivity.
  destruct (Ascii.eqb c " "); reflexivity.
Qed.

Lemma alnum_unreserved (s : string) (mode : url.encoding) :
  forallb url.isAlnum (list_ascii_of_string s) = true ->
  url.escape s mode = s.
Proof.
  intros H. apply escape_unreserved.
  rewrite forallb_forall in *. intros c Hc. apply H in Hc.
  unfold url.shouldEscape. rewrite Hc. reflexivity.
Qed.

Lemma quintets_five (n : nat) :
  forall bits q, In q (base32.quintets n bits) -> List.length q = 5%nat.
Proof.
  induction n as [|n IH]; intros bits q; cbn [base32.quintets]; [intros []|].
  intros [<- | Hin]; [|exact (IH _ _ Hin)].
  rewrite length_app, repeat_length.
  pose proof (firstn_le_length 5 bits). lia.
Qed.

Lemma encodeChar_alnum (q : list bool) :
  List.length q = 5%nat -> url.isAlnum (base32.encodeChar q) = true.
Proof.
  intros Hq.
  destruct q as [|b1 [|b2 [|b3 [|b4 [|b5 [|b6 q]]]]]]; try discriminate Hq.
  destruct b1, b2, b3, b4, b5; reflexivity.
Qed.

Lemma base32_alnum (src : list Byte.byte) :
  forallb url.isAlnum (list_ascii_of_string (b32NoPadding_EncodeToString src)) = true.
Proof.
  unfold b32NoPadding_EncodeToString, base32.EncodeToString_NoPadding.
  rewrite list_ascii_of_string_of_list_ascii. apply forallb_forall.
  intros c Hc. apply in_map_iff in Hc. destruct Hc as (q & <- & Hq).
  apply encodeChar_alnum. exact (quintets_five _ _ _ Hq).
Qed.

Lemma FormatUint_alnum (u : Z) :
  forallb url.isAlnum (list_ascii_of_string (strconv.FormatUint u)) = true.
Proof.
  unfold strconv.FormatUint.
  induction (N.to_uint (Z.to_N u)) as [|d IH|d IH|d IH|d IH|d IH|d IH|d IH|d IH|d IH|d IH];
    cbn [DecimalString.NilEmpty.string_of_uint list_ascii_of_string forallb];
    [reflexivity | rewrite IH; reflexivity ..].
Qed.

Section ProvisionedURI.

Context {otp_pkg : otp_Package} {rand_src : rand.Source}.

(** The URI of a call that gets past the checks and the read. *)
Lemma Generate_builds_uri (opts : GenerateOpts.t) :
  let period :=
    if GenerateOpts.Period opts =? 0 then 30 else GenerateOpts.Period opts in
  let secretSize :=
    if GenerateOpts.SecretSize opts =? 0 then 20 else GenerateOpts.SecretSize opts in
  let digits :=
    if GenerateOpts.Digits opts =? 0 then otp.DigitsSix
    else GenerateOpts.Digits opts in
  let source :=
    match GenerateOpts.Rand opts with None => rand.Reader | Some r => r end in
  let explicit := negb (List.length (GenerateOpts.Secret opts) =? 0)%nat in
  let drawn := io.Read source (Z.to_nat secretSize) in
  let secretBytes :=
    if explicit then GenerateOpts.Secret opts
    else io.fill (repeat Byte.x00 (Z.to_nat secretSize)) (fst drawn) in
  GenerateOpts.Issuer opts <> EmptyString ->
  GenerateOpts.AccountName opts <> EmptyString ->
  (explicit = false -> snd drawn = None) ->
  Generate opts
  = (NewKeyFromURL
       (provisioningURI (GenerateOpts.Issuer opts) (GenerateOpts.AccountName opts)
          (Algorithm_String (GenerateOpts.Algorithm opts)) (Digits_String digits)
          (strconv.FormatUint (uint64 period))
          (b32NoPadding_EncodeToString secretBytes)),
     if explicit then [] else [Z.to_nat secretSize]).
Proof.
  intros period secretSize digits source explicit drawn secretBytes Hi Ha Hread.
  unfold Generate.
  rewrite (string_nonempty_length _ Hi), (string_nonempty_length _ Ha).
  fold period secretSize digits source. rewrite repeat_length. fold drawn.
  unfold secretBytes. clear secretBytes.
  destruct explicit eqn:Hex; unfold explicit in Hex; rewrite Hex.
  - rewrite Encode_provisioning. reflexivity.
  - specialize (Hread eq_refl). destruct drawn as [data err]. cbn [fst snd] in *.
    rewrite Hread. rewrite Encode_provisioning. reflexivity.
Qed.

(** When the issuer and the account name are made of letters and digits,
    and the names of the algorithm and of the digits need no escaping,
    nothing in the URI is percent-encoded: the base32 secret and the
    decimal period never are.  The URI handed to [otp.NewKeyFromURL] is
    [otpauth://totp/Issuer:Account?algorithm=..&digits=..&issuer=Issuer&period=..&secret=..]. *)
Theorem plain_names_give_a_literal_uri (opts : GenerateOpts.t) :
  let period :=
    if GenerateOpts.Period opts =? 0 then 30 else GenerateOpts.Period opts in
  let secretSize :=
    if GenerateOpts.SecretSize opts =? 0 then 20 else GenerateOpts.SecretSize opts in
  let digits :=
    Digits_String (if GenerateOpts.Digits opts =? 0 then otp.DigitsSix
                   else GenerateOpts.Digits opts) in
  let algorithm := Algorithm_String (GenerateOpts.Algorithm opts) in
  let source :=
    match GenerateOpts.Rand opts with None => rand.Reader | Some r => r end in
  let explicit := negb (List.length (GenerateOpts.Secret opts) =? 0)%nat in
  let drawn := io.Read source (Z.to_nat secretSize) in
  let secretBytes :=
    if explicit then GenerateOpts.Secret opts
    else io.fill (repeat Byte.x00 (Z.to_nat secretSize)) (fst drawn) in
  GenerateOpts.Issuer opts <> EmptyString ->
  GenerateOpts.AccountName opts <> EmptyString ->
  forallb url.isAlnum (list_ascii_of_string (GenerateOpts.Issuer opts)) = true ->
  forallb url.isAlnum (list_ascii_of_string (GenerateOpts.AccountName opts)) = true ->
  url.QueryEscape algorithm = algorithm ->
  url.QueryEscape digits = digits ->
  (explicit = false -> snd drawn = None) ->
  fst (Generate opts)
  = NewKeyFromURL
      ("otpauth://totp/" ++ GenerateOpts.Issuer opts ++ ":"
       ++ GenerateOpts.AccountName opts
       ++ "?algorithm=" ++ algorithm ++ "&digits=" ++ digits
       ++ "&issuer=" ++ GenerateOpts.Issuer opts
       ++ "&period=" ++ strconv.FormatUint (uint64 period)
       ++ "&secret=" ++ b32NoPadding_EncodeToString secretBytes)%string.
Proof.
  intros period secretSize digits algorithm source explicit drawn secretBytes
         Hi Ha Hissuer Haccount Halg Hdig Hread.
  rewrite (Generate_builds_uri opts Hi Ha Hread). cbn [fst]. f_equal.
  fold period secretSize source explicit drawn secretBytes.
  unfold provisioningURI, provisioningQuery.
  fold digits algorithm. rewrite Halg, Hdig.
  unfold url.QueryEscape.
  rewrite (alnum_unreserved _ _ Hissuer).
  rewrite (alnum_unreserved _ _ (FormatUint_alnum _)).
  rewrite (alnum_unreserved _ _ (base32_alnum _)).
  rewrite !escape_app.
  rewrite (alnum_unreserved _ _ Hissuer), (alnum_unreserved _ _ Haccount).
  change (url.escape "/" url.encodePath) with "/"%string.
  change (url.escape ":" url.encodePath) with ":"%string.
  rewrite !string_append_assoc. reflexivity.
Qed.

(** With no explicit [Secret], the secret of the key is the text of
    exactly [SecretSize] bytes, however many the random source stored:
    the bytes it stored, then zero bytes; so the [secret] parameter has
    [ceil(8 * SecretSize / 5)] characters. *)
Theorem drawn_secret_has_SecretSize_bytes (opts : GenerateOpts.t)
    (data : list Byte.byte) :
  let period :=
    if GenerateOpts.Period opts =? 0 then 30 else GenerateOpts.Period opts in
  let secretSize :=
    Z.to_nat (if GenerateOpts.SecretSize opts =? 0 then 20
              else GenerateOpts.SecretSize opts) in
  let digits :=
    if GenerateOpts.Digits opts =? 0 then otp.DigitsSix
    else GenerateOpts.Digits opts in
  let source :=
    match GenerateOpts.Rand opts with None => rand.Reader | Some r => r end in
  let stored := firstn secretSize data in
  let secretBytes := stored ++ repeat Byte.x00 (secretSize - List.length stored) in
  GenerateOpts.Issuer opts <> EmptyString ->
  GenerateOpts.AccountName opts <> EmptyString ->
  GenerateOpts.Secret opts = [] ->
  io.Read source secretSize = (data, None) ->
  Generate opts
  = (NewKeyFromURL
       (provisioningURI (GenerateOpts.Issuer opts) (GenerateOpts.AccountName opts)
          (Algorithm_String (GenerateOpts.Algorithm opts)) (Digits_String digits)
          (strconv.FormatUint (uint64 period))
          (b32NoPadding_EncodeToString secretBytes)),
     [secretSize])
  /\ List.length secretBytes = secretSize
  /\ String.length (b32NoPadding_EncodeToString secretBytes)
     = ((8 * secretSize + 4) / 5)%nat.
Proof.
  intros period secretSize digits source stored secretBytes Hi Ha Hs Hread.
  assert (List.length secretBytes = secretSize) as Hlen.
  { unfold secretBytes. rewrite length_app, repeat_length.
    pose proof (firstn_le_length secretSize data). fold stored in H. lia. }
  split; [|split; [exact Hlen | rewrite base32_length, Hlen; reflexivity]].
  rewrite (Generate_builds_uri opts Hi Ha).
  - rewrite Hs. cbn [List.length Nat.eqb negb].
    fold period digits source. fold secretSize. rewrite Hread. cbn [fst].
    rewrite fill_zero_buffer. reflexivity.
  - intros _. fold source. fold secretSize. rewrite Hread. reflexivity.
Qed.

End ProvisionedURI.

(** An explicit [Secret] decides the key alone: [SecretSize], [Rand] and
    the default random source play no part, and nothing is read. *)
Theorem explicit_secret_ignores_random_source
    {otp_pkg : otp_Package} (rand1 rand2 : rand.Source) (opts : GenerateOpts.t)
    (secretSize : Z) (source : option io.Reader) :
  GenerateOpts.Secret opts <> [] ->
  @Generate otp_pkg rand1
    {| GenerateOpts.Issuer := GenerateOpts.Issuer opts;
       GenerateOpts.AccountName := GenerateOpts.AccountName opts;
       GenerateOpts.Period := GenerateOpts.Period opts;
       GenerateOpts.SecretSize := secretSize;
       GenerateOpts.Secret := GenerateOpts.Secret opts;
       GenerateOpts.Digits := GenerateOpts.Digits opts;
       GenerateOpts.Algorithm := GenerateOpts.Algorithm opts;
       GenerateOpts.Rand := source |}
  = @Generate otp_pkg rand2 opts
  /\ snd (@Generate otp_pkg rand2 opts) = [].
Proof.
  intros Hs. unfold Generate. cbn [GenerateOpts.Issuer GenerateOpts.AccountName
    GenerateOpts.Period GenerateOpts.SecretSize GenerateOpts.Secret
    GenerateOpts.Digits GenerateOpts.Algorithm GenerateOpts.Rand].
  destruct (String.length (GenerateOpts.Issuer opts) =? 0)%nat;
    [split; reflexivity|].
  destruct (String.length (GenerateOpts.AccountName opts) =? 0)%nat;
    [split; reflexivity|].
  destruct (GenerateOpts.Secret opts) as [|b s]; [contradiction|].
  cbn [List.length Nat.eqb negb]. split; reflexivity.
Qed.

Lemma explicit_secret_ignores_random_source_witness :
  @Generate otp_reference rand_reference
    {| GenerateOpts.Issuer := "Example";
       GenerateOpts.AccountName := "alice";
       GenerateOpts.Period := 0;
       GenerateOpts.SecretSize := 64;
       GenerateOpts.Secret := helloSecret;
       GenerateOpts.Digits := 0;
       GenerateOpts.Algorithm := 0;
       GenerateOpts.Rand := Some (failingReader (otp.ErrExternal "no entropy")) |}
  = @Generate otp_reference {| rand.Reader := readerOf [] |}
      (exampleOpts "Example" "alice" helloSecret None)
  /\ snd (@Generate otp_reference {| rand.Reader := readerOf [] |}
            (exampleOpts "Example" "alice" helloSecret None)) = [].
Proof.
  apply (@explicit_secret_ignores_random_source otp_reference rand_reference
           {| rand.Reader := readerOf [] |}
           (exampleOpts "Example" "alice" helloSecret None) 64
           (Some (failingReader (otp.ErrExternal "no entropy")))).
  discriminate.
Defined.

Lemma plain_names_give_a_literal_uri_witness :
  fst (@Generate otp_reference rand_reference
         (exampleOpts "Example" "alice" helloSecret None))
  = (Some "otpauth://totp/Example:alice?algorithm=SHA1&digits=6&issuer=Example&period=30&secret=JBSWY3DPEHPK3PXP"%string,
     None).
Proof.
  apply (@plain_names_give_a_literal_uri otp_reference rand_reference
           (exampleOpts "Example" "alice" helloSecret None)).
  - discriminate.
  - discriminate.
  - reflexivity.
  - reflexivity.
  - reflexivity.
  - reflexivity.
  - discriminate.
Defined.

Lemma drawn_secret_has_SecretSize_bytes_witness :
  @Generate otp_reference rand_reference
    (exampleOpts "Example" "alice" [] (Some (readerOf [Byte.x48; Byte.x65])))
  = (NewKeyFromURL
       (provisioningURI "Example" "alice" "SHA1" "6" "30"
          (b32NoPadding_EncodeToString
             ([Byte.x48; Byte.x65] ++ repeat Byte.x00 18))),
     [20%nat])
  /\ List.length ([Byte.x48; Byte.x65] ++ repeat Byte.x00 18) = 20%nat
  /\ String.length (b32NoPadding_EncodeToString
                      ([Byte.x48; Byte.x65] ++ repeat Byte.x00 18)) = 32%nat.
Proof.
  apply (@drawn_secret_has_SecretSize_bytes otp_reference rand_reference
           (exampleOpts "Example" "alice" [] (Some (readerOf [Byte.x48; Byte.x65])))
           [Byte.x48; Byte.x65]).
  - discriminate.
  - discriminate.
  - reflexivity.
  - reflexivity.
Defined.
